(** * The in-memory blob descriptor cache of the registry

    A shallow embedding of [registry/storage/cache/memory] (package
    [memory]): the global descriptor provider
    [inMemoryBlobDescriptorCacheProvider] and the repository scoped view
    [repositoryScopedInMemoryBlobDescriptorCache], both working on one
    shared ARC cache.

    The Go methods mutate the cache held by the provider; here every
    method takes the cache and returns the cache it leaves behind.  The
    [context.Context] argument is never consulted by the code and is
    dropped. *)

From Stdlib Require Import ZArith String Ascii Lia.
From stdpp Require Import base option strings gmap.

Local Open Scope Z_scope.
Local Open Scope string_scope.

(** ** Package [go-digest]

    [type Digest string]: a digest is the string ["<algorithm>:<encoded>"].
    [Algorithm()] slices the string at the first [':'] and panics when
    there is none; it is written out on the string.  [Validate()] is
    taken through an interface: all the cache relies on is that a digest
    that validates has a separator. *)
Module godigest.

Abbreviation Digest := string (only parsing).

Inductive failure :=
| ErrDigestInvalidFormat
| ErrDigestInvalidLength
| ErrDigestUnsupported.

(** [strings.Index(string(d), ":")]; [None] is the panic of the Go
    method. *)
Definition sepIndex (d : Digest) : option nat := String.index 0 ":" d.

(** [Algorithm(d[:d.sepIndex()])] *)
Definition Algorithm (d : Digest) : option string :=
  match sepIndex d with
  | Some i => Some (String.substring 0 i d)
  | None => None
  end.

Class Validation := {
  (** [None] is the [nil] error *)
  Validate : Digest -> option failure;
  Validate_sepIndex : forall d, Validate d = None -> is_Some (sepIndex d)
}.

End godigest.

(** ** Package [reference]

    [ParseNormalizedNamed] is consumed as a validation call.  It returns
    the normalized name or an error; the empty string is no repository
    name. *)
Module reference.

Abbreviation failure := string (only parsing).

Class Normalization := {
  ParseNormalizedNamed : string -> string + failure;
  ParseNormalizedNamed_empty : forall n, ParseNormalizedNamed "" <> inl n
}.

End reference.

(** ** Package [distribution] *)
Module distribution.

(** Modelled from the spec: the struct [distribution.Descriptor], whose
    declaration is outside the sources at hand:
    [{ digest: Digest, size: int64, mediaType: string }]. *)
Record Descriptor := {
  MediaType : string;
  Size : Z;
  Digest : godigest.Digest
}.

(** [distribution.Descriptor{}] *)
Definition zero : Descriptor :=
  {| MediaType := ""; Size := 0; Digest := "" |}.

#[global] Instance Descriptor_eq_dec : EqDecision Descriptor.
Proof. solve_decision. Defined.

End distribution.

Abbreviation Descriptor := distribution.Descriptor.

(** The values of Go's [error] that these methods return.  [nil] is
    [None : option error]. *)
Inductive error :=
| ErrBlobUnknown                                  (* distribution.ErrBlobUnknown *)
| InvalidDigest (e : godigest.failure)            (* an error of Digest.Validate *)
| InvalidDescriptor (msg : string)                (* an error made by cache.ValidateDescriptor *)
| InvalidRepositoryName (e : reference.failure).  (* an error of reference.ParseNormalizedNamed *)

(** [err == distribution.ErrBlobUnknown] *)
Definition isErrBlobUnknown (err : option error) : bool :=
  match err with
  | Some ErrBlobUnknown => true
  | _ => false
  end.

(** ** Package [cache] *)
Module cache.
Section ValidateDescriptor.
Context `{!godigest.Validation}.

(** Modelled from the spec: [cache.ValidateDescriptor], a function of
    this repository outside the sources at hand.  "Validate [...] the
    descriptor's well-formedness (non-empty media type, non-negative
    size, digest present and valid); fail with
    [InvalidDigest]/[InvalidDescriptor]". *)
Definition ValidateDescriptor (desc : Descriptor) : option error :=
  match godigest.Validate (distribution.Digest desc) with
  | Some e => Some (InvalidDigest e)
  | None =>
    if Z.ltb (distribution.Size desc) 0
    then Some (InvalidDescriptor "invalid size in descriptor")
    else if String.eqb (distribution.MediaType desc) ""
    then Some (InvalidDescriptor "empty mediatype on descriptor")
    else None
  end.

End ValidateDescriptor.
End cache.

(** ** The cache key *)
Record descriptorCacheKey := {
  digest : godigest.Digest;
  repo : string
}.

#[global] Instance descriptorCacheKey_eq_dec : EqDecision descriptorCacheKey.
Proof. solve_decision. Defined.

#[global] Instance descriptorCacheKey_countable : Countable descriptorCacheKey.
Proof.
  refine (inj_countable'
            (fun k => (digest k, repo k))
            (fun p => {| digest := p.1; repo := p.2 |}) _).
  by intros [].
Defined.

(** [descriptorCacheKey{digest: dgst}]: the [repo] field is left at its
    zero value. *)
Definition globalKey (dgst : godigest.Digest) : descriptorCacheKey :=
  {| digest := dgst; repo := "" |}.

(** ** Package [golang-lru]: the ARC cache

    The cache is used through [NewARC], [Get], [Add] and [Remove].  Its
    eviction policy is left open: [contents] is the set of entries that
    [Get] can find, an [Add] stores its entry and may evict others, a
    [Get] finds what is stored, keeps the entry it asked for and may (by
    promoting it) evict others, a [Remove] removes its key and nothing
    else. *)
Module lru.

Class ARCCache (K V cache : Type) `{Countable K} := {
  Get : K -> cache -> option V * cache;
  Add : K -> V -> cache -> cache;
  Remove : K -> cache -> cache;
  contents : cache -> gmap K V;
  Get_value : forall k c, (Get k c).1 = contents c !! k;
  Get_same : forall k c, contents (Get k c).2 !! k = contents c !! k;
  Get_subseteq : forall k c, contents (Get k c).2 ⊆ contents c;
  Add_same : forall k v c, contents (Add k v c) !! k = Some v;
  Add_subseteq : forall k v c, contents (Add k v c) ⊆ <[k:=v]> (contents c);
  Remove_contents : forall k c, contents (Remove k c) = delete k (contents c)
}.

(** The constructor: "NewARC can only fail if size is <= 0", and the
    cache it makes is empty. *)
Class Constructor (K V cache : Type) `{ARCCache K V cache} := {
  NewARC : Z -> option cache;
  NewARC_size : forall size, NewARC size = None <-> (size <= 0)%Z;
  NewARC_contents : forall size c, NewARC size = Some c -> contents c = ∅
}.

End lru.

(** ** Package [memory] *)

(** [math.MaxInt] of a 64-bit platform; [UnlimitedSize] is the same
    constant. *)
Definition MaxInt : Z := 9223372036854775807.
Definition DefaultSize : Z := 10000.
Definition UnlimitedSize : Z := MaxInt.

(** How a call ends: it returns [a] and leaves the cache [c], or it
    panics (leaving the cache [c]). *)
Inductive outcome (cache A : Type) :=
| Returns (a : A) (c : cache)
| Panics (c : cache).
Arguments Returns {cache A} a c.
Arguments Panics {cache A} c.

(** The cache that a call leaves. *)
Definition cache_of {cache A : Type} (o : outcome cache A) : cache :=
  match o with
  | Returns _ c | Panics c => c
  end.

(** The struct of the scoped view.  Its field [repo] is [view_repo]
    here ([repo] is the field of the key); its field [parent] points to
    the provider, whose cache is the one every method is given. *)
Record repositoryScopedInMemoryBlobDescriptorCache := {
  view_repo : string
}.

(** *** The methods of [imbdcp *inMemoryBlobDescriptorCacheProvider] *)
Module imbdcp.
Section Methods.
Context {cache : Type}.
Context `{!lru.ARCCache descriptorCacheKey Descriptor cache}.
Context `{!lru.Constructor descriptorCacheKey Descriptor cache}.
Context `{!godigest.Validation} `{!reference.Normalization}.

(** [NewInMemoryBlobDescriptorCacheProvider]; [None] is [panic(err)]. *)
Definition NewInMemoryBlobDescriptorCacheProvider (size : Z) : option cache :=
  let size := if Z.leb size 0 then MaxInt else size in
  match lru.NewARC size with
  | Some lruCache => Some lruCache
  | None => None
  end.

Definition RepositoryScoped (repo : string)
  : repositoryScopedInMemoryBlobDescriptorCache + error :=
  match reference.ParseNormalizedNamed repo with
  | inr err => inr (InvalidRepositoryName err)
  | inl _ => inl {| view_repo := repo |}
  end.

(** The values of the cache are [distribution.Descriptor]s only, so
    the type assertion on the value read always holds. *)
Definition Stat (dgst : godigest.Digest) (c : cache)
  : (Descriptor * option error) * cache :=
  match godigest.Validate dgst with
  | Some err => ((distribution.zero, Some (InvalidDigest err)), c)
  | None =>
    let key := {| digest := dgst; repo := "" |} in
    let (descriptor, c) := lru.Get key c in
    match descriptor with
    | Some desc => ((desc, None), c)
    | None => ((distribution.zero, Some ErrBlobUnknown), c)
    end
  end.

Definition Clear (dgst : godigest.Digest) (c : cache) : option error * cache :=
  let key := {| digest := dgst; repo := "" |} in
  (None, lru.Remove key c).

(** [dgst.Algorithm() != desc.Digest.Algorithm() && dgst != desc.Digest];
    [None] when one of the two [Algorithm()] calls panics. *)
Definition differ (dgst : godigest.Digest) (desc : Descriptor) : option bool :=
  match godigest.Algorithm dgst with
  | None => None
  | Some a =>
    match godigest.Algorithm (distribution.Digest desc) with
    | None => None
    | Some a' =>
      Some (negb (String.eqb a a')
            && negb (String.eqb dgst (distribution.Digest desc)))
    end
  end.

(** [SetDescriptor] calls itself; [fuel] bounds the nesting of the
    calls, and [None] says that the bound was too small. *)
Fixpoint SetDescriptor_rec (fuel : nat) (dgst : godigest.Digest)
    (desc : Descriptor) (c : cache) : option (outcome cache (option error)) :=
  match fuel with
  | O => None
  | S fuel =>
    let '((_, err), c) := Stat dgst c in
    if isErrBlobUnknown err then
      let canonical :=
        match differ dgst desc with
        | None => Some (Panics c)
        | Some true =>
          (* if the digests differ, set the other canonical mapping *)
          SetDescriptor_rec fuel (distribution.Digest desc) desc c
        | Some false => Some (Returns None c)
        end in
      match canonical with
      | None => None
      | Some (Panics c) => Some (Panics c)
      | Some (Returns (Some err) c) => Some (Returns (Some err) c)
      | Some (Returns None c) =>
        match godigest.Validate dgst with
        | Some err => Some (Returns (Some (InvalidDigest err)) c)
        | None =>
          match cache.ValidateDescriptor desc with
          | Some err => Some (Returns (Some err) c)
          | None =>
            let key := {| digest := dgst; repo := "" |} in
            Some (Returns None (lru.Add key desc c))
          end
        end
      end
    else
      (* we already know it, do nothing *)
      Some (Returns err c)
  end.

(** A call and the one call nested in it; more levels give the same
    result, as is proved below. *)
Definition SetDescriptor := SetDescriptor_rec 2.

End Methods.
End imbdcp.

(** *** The methods of [rsimbdcp *repositoryScopedInMemoryBlobDescriptorCache] *)
Module rsimbdcp.
Section Methods.
Context {cache : Type}.
Context `{!lru.ARCCache descriptorCacheKey Descriptor cache}.
Context `{!godigest.Validation}.
Variable rsimbdcp : repositoryScopedInMemoryBlobDescriptorCache.

Definition Stat (dgst : godigest.Digest) (c : cache)
  : (Descriptor * option error) * cache :=
  match godigest.Validate dgst with
  | Some err => ((distribution.zero, Some (InvalidDigest err)), c)
  | None =>
    let key := {| digest := dgst; repo := view_repo rsimbdcp |} in
    let (descriptor, c) := lru.Get key c in
    match descriptor with
    | Some desc => ((desc, None), c)
    | None => ((distribution.zero, Some ErrBlobUnknown), c)
    end
  end.

Definition Clear (dgst : godigest.Digest) (c : cache) : option error * cache :=
  let key := {| digest := dgst; repo := view_repo rsimbdcp |} in
  (None, lru.Remove key c).

Definition SetDescriptor (dgst : godigest.Digest) (desc : Descriptor) (c : cache)
  : option (outcome cache (option error)) :=
  match godigest.Validate dgst with
  | Some err => Some (Returns (Some (InvalidDigest err)) c)
  | None =>
    match cache.ValidateDescriptor desc with
    | Some err => Some (Returns (Some err) c)
    | None =>
      let key := {| digest := dgst; repo := view_repo rsimbdcp |} in
      let c := lru.Add key desc c in
      imbdcp.SetDescriptor dgst desc c
    end
  end.

End Methods.
End rsimbdcp.

(** ** Three caches behind the interface

    [MapCache] never evicts; [BoundedCache] holds at most [cap] entries
    and evicts the least recently used one; [Traced] records, on top of
    any cache, the calls made to it. *)
Module MapCache.
Section MapCache.
Context `{Countable K} {V : Type}.

#[global, refine] Instance arc : lru.ARCCache K V (gmap K V) := {|
  lru.Get k m := (m !! k, m);
  lru.Add k v m := <[k:=v]> m;
  lru.Remove k m := delete k m;
  lru.contents m := m
|}.
Proof.
  - done.
  - done.
  - done.
  - intros k v m. apply lookup_insert_eq.
  - done.
  - done.
Defined.

End MapCache.
End MapCache.

Module BoundedCache.
Section BoundedCache.
Context `{Countable K} {V : Type}.

(** [items] has the most recently used entry first. *)
Record t := { cap : positive; items : list (K * V) }.

Fixpoint takeZ (n : Z) (l : list (K * V)) : list (K * V) :=
  match l with
  | [] => []
  | x :: l => if Z.leb n 0 then [] else x :: takeZ (n - 1) l
  end.

Definition without (k : K) (l : list (K * V)) : list (K * V) :=
  filter (fun p => p.1 <> k) l.

Definition entries (c : t) : gmap K V := list_to_map (items c).

Definition New (size : Z) : option t :=
  if Z.leb size 0 then None else Some {| cap := Z.to_pos size; items := [] |}.

Definition Get (k : K) (c : t) : option V * t :=
  match entries c !! k with
  | Some v => (Some v, {| cap := cap c; items := (k, v) :: without k (items c) |})
  | None => (None, c)
  end.

Definition Add (k : K) (v : V) (c : t) : t :=
  {| cap := cap c;
     items := takeZ (Z.pos (cap c)) ((k, v) :: without k (items c)) |}.

Definition Remove (k : K) (c : t) : t :=
  {| cap := cap c; items := without k (items c) |}.

Lemma without_to_map k l :
  list_to_map (without k l) = delete k (list_to_map l : gmap K V).
Proof.
  induction l as [|[k' v] l IH]; simpl.
  - by rewrite delete_empty.
  - unfold without in *. rewrite filter_cons. simpl.
    destruct (decide (k' <> k)) as [Hne|Heq]; simpl.
    + by rewrite IH, delete_insert_ne.
    + apply dec_stable in Heq. subst k'. by rewrite IH, delete_insert_eq.
Qed.

Lemma takeZ_to_map n l :
  (list_to_map (takeZ n l) : gmap K V) ⊆ list_to_map l.
Proof.
  revert n. induction l as [|[k v] l IH]; intros n; simpl; [done|].
  destruct (Z.leb n 0); simpl.
  - apply map_empty_subseteq.
  - by apply insert_mono.
Qed.

Lemma Get_entries k c : entries (Get k c).2 = entries c.
Proof.
  unfold Get. destruct (entries c !! k) as [v|] eqn:E; [|done].
  unfold entries in *; simpl.
  by rewrite without_to_map, insert_delete_eq, insert_id.
Qed.

#[global, refine] Instance arc : lru.ARCCache K V t := {|
  lru.Get := Get;
  lru.Add := Add;
  lru.Remove := Remove;
  lru.contents := entries
|}.
Proof.
  - intros k c. unfold Get. by destruct (entries c !! k).
  - intros k c. by rewrite Get_entries.
  - intros k c. by rewrite Get_entries.
  - intros k v c. unfold entries, Add; simpl.
    by rewrite lookup_insert_eq.
  - intros k v c. unfold entries, Add.
    etrans; [apply takeZ_to_map|]. simpl.
    by rewrite without_to_map, insert_delete_eq.
  - intros k c. apply without_to_map.
Defined.

#[global, refine] Instance constructor : lru.Constructor K V t :=
  {| lru.NewARC := New |}.
Proof.
  - intros size. unfold New.
    destruct (Z.leb_spec size 0); split; intros; try done; lia.
  - intros size c. unfold New.
    destruct (Z.leb size 0); [done|]. by intros [= <-].
Defined.

End BoundedCache.
End BoundedCache.

Module Traced.

Inductive call (K V : Type) :=
| Got (k : K)
| Added (k : K) (v : V)
| Removed (k : K).
Arguments Got {K V} k.
Arguments Added {K V} k v.
Arguments Removed {K V} k.

Definition key {K V : Type} (a : call K V) : K :=
  match a with
  | Got k | Added k _ | Removed k => k
  end.

Section Traced.
Context `{lru.ARCCache K V cache}.

#[global, refine] Instance arc : lru.ARCCache K V (cache * list (call K V)) := {|
  lru.Get k s := ((lru.Get k s.1).1, ((lru.Get k s.1).2, (s.2 ++ [Got k])%list));
  lru.Add k v s := (lru.Add k v s.1, (s.2 ++ [Added k v])%list);
  lru.Remove k s := (lru.Remove k s.1, (s.2 ++ [Removed k])%list);
  lru.contents s := lru.contents s.1
|}.
Proof.
  - intros k s. apply lru.Get_value.
  - intros k s. apply lru.Get_same.
  - intros k s. apply lru.Get_subseteq.
  - intros k v s. apply lru.Add_same.
  - intros k v s. apply lru.Add_subseteq.
  - intros k s. apply lru.Remove_contents.
Defined.

End Traced.
End Traced.

(** ** Digests and repository names for the examples

    A validation of digests in the manner of [go-digest] (an algorithm
    among sha256, sha384 and sha512, followed by as many lower-case
    hexadecimal digits as the algorithm gives), and a normalization of
    repository names in the manner of [reference] (a name without a
    domain is one of [docker.io], a single component there is under
    [library/]). *)
Module Sample.

Definition isLowerHex (a : ascii) : bool :=
  let n := nat_of_ascii a in
  (Nat.leb 48 n && Nat.leb n 57) || (Nat.leb 97 n && Nat.leb n 102).

Definition isLowerAlnum (a : ascii) : bool :=
  let n := nat_of_ascii a in
  (Nat.leb 48 n && Nat.leb n 57) || (Nat.leb 97 n && Nat.leb n 122).

Definition hexLength (alg : string) : option nat :=
  if String.eqb alg "sha256" then Some 64%nat
  else if String.eqb alg "sha384" then Some 96%nat
  else if String.eqb alg "sha512" then Some 128%nat
  else None.

Definition Validate (d : godigest.Digest) : option godigest.failure :=
  match godigest.sepIndex d with
  | None => Some godigest.ErrDigestInvalidFormat
  | Some i =>
    let encoded := String.substring (S i) (String.length d - S i) d in
    if Nat.eqb i 0 || Nat.eqb (S i) (String.length d)
    then Some godigest.ErrDigestInvalidFormat
    else
      match hexLength (String.substring 0 i d) with
      | None => Some godigest.ErrDigestUnsupported
      | Some n =>
        if negb (Nat.eqb (String.length encoded) n)
        then Some godigest.ErrDigestInvalidLength
        else if forallb isLowerHex (list_ascii_of_string encoded)
        then None
        else Some godigest.ErrDigestInvalidFormat
      end
  end.

#[global, refine] Instance validation : godigest.Validation :=
  {| godigest.Validate := Validate |}.
Proof.
  intros d. unfold Validate.
  destruct (godigest.sepIndex d); [eauto | discriminate].
Defined.

Definition contains (c s : string) : bool :=
  match String.index 0 c s with
  | Some _ => true
  | None => false
  end.

Definition splitDockerDomain (name : string) : string * string :=
  let split :=
    match String.index 0 "/" name with
    | None => ("docker.io", name)
    | Some i =>
      let head := String.substring 0 i name in
      if negb (contains "." head) && negb (contains ":" head)
         && negb (String.eqb head "localhost")
      then ("docker.io", name)
      else (head, String.substring (S i) (String.length name - S i) name)
    end in
  let domain :=
    if String.eqb split.1 "index.docker.io" then "docker.io" else split.1 in
  let remainder :=
    if String.eqb domain "docker.io" && negb (contains "/" split.2)
    then "library/" ++ split.2
    else split.2 in
  (domain, remainder).

(** The path of a name: lower-case letters and digits, separated by
    single [.], [_], [-] or [/]. *)
Fixpoint pathOK (afterSeparator : bool) (s : list ascii) : bool :=
  match s with
  | [] => negb afterSeparator
  | a :: s =>
    if isLowerAlnum a then pathOK false s
    else if existsb (Ascii.eqb a) ["."; "_"; "-"; "/"]%char
    then negb afterSeparator && pathOK true s
    else false
  end.

Definition ParseNormalizedNamed (s : string) : string + reference.failure :=
  let (domain, remainder) := splitDockerDomain s in
  if pathOK true (list_ascii_of_string remainder)
  then inl (domain ++ "/" ++ remainder)
  else inr "invalid reference format".

#[global, refine] Instance normalization : reference.Normalization :=
  {| reference.ParseNormalizedNamed := ParseNormalizedNamed |}.
Proof. intros n. discriminate. Defined.

Definition hex64 (a : ascii) : string :=
  string_of_list_ascii (repeat a 64).

Definition sha256 (a : ascii) : godigest.Digest := "sha256:" ++ hex64 a.
Definition sha512 (a : ascii) : godigest.Digest :=
  "sha512:" ++ hex64 a ++ hex64 a.

Definition layer (d : godigest.Digest) (size : Z) : Descriptor :=
  {| distribution.MediaType := "application/octet-stream";
     distribution.Size := size;
     distribution.Digest := d |}.

Abbreviation store := (gmap descriptorCacheKey Descriptor).
Abbreviation bounded := (@BoundedCache.t descriptorCacheKey Descriptor).

Definition a256 : godigest.Digest := sha256 "a".
Definition b256 : godigest.Digest := sha256 "b".
Definition c512 : godigest.Digest := sha512 "c".
Definition ubuntu : repositoryScopedInMemoryBlobDescriptorCache :=
  {| view_repo := "library/ubuntu" |}.
Definition alpine : repositoryScopedInMemoryBlobDescriptorCache :=
  {| view_repo := "library/alpine" |}.

End Sample.

(** ** The caches that the calls leave

    For a valid digest and a valid descriptor [SetDescriptor] leaves
    [settled d desc c]; this is [SetDescriptor_rec_valid] below. *)
Section Settled.
Context {cache : Type}.
Context `{!lru.ARCCache descriptorCacheKey Descriptor cache}.

(** The cache that a call for a valid digest and a valid descriptor
    leaves when it makes no self-call. *)
Definition registered (d : godigest.Digest) (desc : Descriptor) (c : cache) : cache :=
  match lru.contents c !! globalKey d with
  | Some _ => (lru.Get (globalKey d) c).2
  | None => lru.Add (globalKey d) desc (lru.Get (globalKey d) c).2
  end.

(** The cache that a call for a valid digest and a valid descriptor
    leaves. *)
Definition settled (d : godigest.Digest) (desc : Descriptor) (c : cache) : cache :=
  match lru.contents c !! globalKey d with
  | Some _ => (lru.Get (globalKey d) c).2
  | None =>
    let c0 := (lru.Get (globalKey d) c).2 in
    match imbdcp.differ d desc with
    | Some true =>
      lru.Add (globalKey d) desc (registered (distribution.Digest desc) desc c0)
    | _ => lru.Add (globalKey d) desc c0
    end
  end.

Definition scopedKey (v : repositoryScopedInMemoryBlobDescriptorCache)
    (d : godigest.Digest) : descriptorCacheKey :=
  {| digest := d; repo := view_repo v |}.

End Settled.

(** ** What a cache built by the methods holds *)
Section Reachable.
Context {cache : Type}.
Context `{!lru.ARCCache descriptorCacheKey Descriptor cache}.
Context `{!lru.Constructor descriptorCacheKey Descriptor cache}.
Context `{!godigest.Validation}.

(** Every entry has a key whose digest validates and a descriptor that
    [cache.ValidateDescriptor] admits. *)
Definition wellFormed (c : cache) : Prop :=
  forall k desc, lru.contents c !! k = Some desc ->
    godigest.Validate (digest k) = None /\ cache.ValidateDescriptor desc = None.

(** The caches that the constructor and the six methods make. *)
Inductive reachable : cache -> Prop :=
| reachable_New size c :
    imbdcp.NewInMemoryBlobDescriptorCacheProvider size = Some c -> reachable c
| reachable_Stat d c :
    reachable c -> reachable (imbdcp.Stat d c).2
| reachable_Clear d c :
    reachable c -> reachable (imbdcp.Clear d c).2
| reachable_SetDescriptor d desc c r :
    reachable c -> imbdcp.SetDescriptor d desc c = Some r -> reachable (cache_of r)
| reachable_scoped_Stat v d c :
    reachable c -> reachable (rsimbdcp.Stat v d c).2
| reachable_scoped_Clear v d c :
    reachable c -> reachable (rsimbdcp.Clear v d c).2
| reachable_scoped_SetDescriptor v d desc c r :
    reachable c -> rsimbdcp.SetDescriptor v d desc c = Some r -> reachable (cache_of r).

End Reachable.

(** ** Package [crypto/tls]

    The constants that [registry.go] names, with their values in the
    standard library (the cipher suite and version numbers of the TLS
    registry). *)
Module tls.

Definition TLS_RSA_WITH_3DES_EDE_CBC_SHA : Z := 10.
Definition TLS_RSA_WITH_AES_128_CBC_SHA : Z := 47.
Definition TLS_RSA_WITH_AES_256_CBC_SHA : Z := 53.
Definition TLS_RSA_WITH_AES_128_GCM_SHA256 : Z := 156.
Definition TLS_RSA_WITH_AES_256_GCM_SHA384 : Z := 157.
Definition TLS_ECDHE_ECDSA_WITH_AES_128_CBC_SHA : Z := 49161.
Definition TLS_ECDHE_ECDSA_WITH_AES_256_CBC_SHA : Z := 49162.
Definition TLS_ECDHE_RSA_WITH_3DES_EDE_CBC_SHA : Z := 49170.
Definition TLS_ECDHE_RSA_WITH_AES_128_CBC_SHA : Z := 49171.
Definition TLS_ECDHE_RSA_WITH_AES_256_CBC_SHA : Z := 49172.
Definition TLS_ECDHE_RSA_WITH_AES_128_GCM_SHA256 : Z := 49199.
Definition TLS_ECDHE_ECDSA_WITH_AES_128_GCM_SHA256 : Z := 49195.
Definition TLS_ECDHE_RSA_WITH_AES_256_GCM_SHA384 : Z := 49200.
Definition TLS_ECDHE_ECDSA_WITH_AES_256_GCM_SHA384 : Z := 49196.
Definition TLS_ECDHE_RSA_WITH_CHACHA20_POLY1305_SHA256 : Z := 52392.
Definition TLS_ECDHE_ECDSA_WITH_CHACHA20_POLY1305_SHA256 : Z := 52393.
Definition TLS_AES_128_GCM_SHA256 : Z := 4865.
Definition TLS_AES_256_GCM_SHA384 : Z := 4866.
Definition TLS_CHACHA20_POLY1305_SHA256 : Z := 4867.

Definition VersionTLS12 : Z := 771.
Definition VersionTLS13 : Z := 772.

Inductive ClientAuthType :=
| NoClientCert
| RequestClientCert
| RequireAnyClientCert
| VerifyClientCertIfGiven
| RequireAndVerifyClientCert.

End tls.

(** ** Package [configuration]

    The fields of [configuration.Configuration] that [ListenAndServe],
    [nextProtos] and [resolveConfiguration] read, each under the path by
    which the code reaches it ([config.HTTP.TLS.MinimumTLS] is
    [HTTP_TLS_MinimumTLS]), with the types that their uses impose. *)
Module configuration.

Record Configuration := {
  HTTP_Net : string;
  HTTP_Addr : string;
  HTTP_DrainTimeout : Z;
  HTTP_HTTP2_Disabled : bool;
  HTTP_TLS_Certificate : string;
  HTTP_TLS_Key : string;
  HTTP_TLS_ClientCAs : list string;
  HTTP_TLS_MinimumTLS : string;
  HTTP_TLS_CipherSuites : list string;
  HTTP_TLS_LetsEncrypt_CacheFile : string;
  HTTP_TLS_LetsEncrypt_Email : string;
  HTTP_TLS_LetsEncrypt_Hosts : list string;
  HTTP_TLS_LetsEncrypt_DirectoryURL : string
}.

(** [config.HTTP.TLS.MinimumTLS = v] *)
Definition set_HTTP_TLS_MinimumTLS (v : string) (config : Configuration)
  : Configuration :=
  {| HTTP_Net := HTTP_Net config;
     HTTP_Addr := HTTP_Addr config;
     HTTP_DrainTimeout := HTTP_DrainTimeout config;
     HTTP_HTTP2_Disabled := HTTP_HTTP2_Disabled config;
     HTTP_TLS_Certificate := HTTP_TLS_Certificate config;
     HTTP_TLS_Key := HTTP_TLS_Key config;
     HTTP_TLS_ClientCAs := HTTP_TLS_ClientCAs config;
     HTTP_TLS_MinimumTLS := v;
     HTTP_TLS_CipherSuites := HTTP_TLS_CipherSuites config;
     HTTP_TLS_LetsEncrypt_CacheFile := HTTP_TLS_LetsEncrypt_CacheFile config;
     HTTP_TLS_LetsEncrypt_Email := HTTP_TLS_LetsEncrypt_Email config;
     HTTP_TLS_LetsEncrypt_Hosts := HTTP_TLS_LetsEncrypt_Hosts config;
     HTTP_TLS_LetsEncrypt_DirectoryURL := HTTP_TLS_LetsEncrypt_DirectoryURL config |}.

End configuration.

(** ** Package [registry]

    An [error] is its message.  The calls to the loggers are left out. *)
Module registry.

(** a map of TLS cipher suite names to constants *)
Definition cipherSuiteTable : list (string * Z) := [
  ("TLS_RSA_WITH_3DES_EDE_CBC_SHA", tls.TLS_RSA_WITH_3DES_EDE_CBC_SHA);
  ("TLS_RSA_WITH_AES_128_CBC_SHA", tls.TLS_RSA_WITH_AES_128_CBC_SHA);
  ("TLS_RSA_WITH_AES_256_CBC_SHA", tls.TLS_RSA_WITH_AES_256_CBC_SHA);
  ("TLS_RSA_WITH_AES_128_GCM_SHA256", tls.TLS_RSA_WITH_AES_128_GCM_SHA256);
  ("TLS_RSA_WITH_AES_256_GCM_SHA384", tls.TLS_RSA_WITH_AES_256_GCM_SHA384);
  ("TLS_ECDHE_ECDSA_WITH_AES_128_CBC_SHA", tls.TLS_ECDHE_ECDSA_WITH_AES_128_CBC_SHA);
  ("TLS_ECDHE_ECDSA_WITH_AES_256_CBC_SHA", tls.TLS_ECDHE_ECDSA_WITH_AES_256_CBC_SHA);
  ("TLS_ECDHE_RSA_WITH_3DES_EDE_CBC_SHA", tls.TLS_ECDHE_RSA_WITH_3DES_EDE_CBC_SHA);
  ("TLS_ECDHE_RSA_WITH_AES_128_CBC_SHA", tls.TLS_ECDHE_RSA_WITH_AES_128_CBC_SHA);
  ("TLS_ECDHE_RSA_WITH_AES_256_CBC_SHA", tls.TLS_ECDHE_RSA_WITH_AES_256_CBC_SHA);
  ("TLS_ECDHE_RSA_WITH_AES_128_GCM_SHA256", tls.TLS_ECDHE_RSA_WITH_AES_128_GCM_SHA256);
  ("TLS_ECDHE_ECDSA_WITH_AES_128_GCM_SHA256", tls.TLS_ECDHE_ECDSA_WITH_AES_128_GCM_SHA256);
  ("TLS_ECDHE_RSA_WITH_AES_256_GCM_SHA384", tls.TLS_ECDHE_RSA_WITH_AES_256_GCM_SHA384);
  ("TLS_ECDHE_ECDSA_WITH_AES_256_GCM_SHA384", tls.TLS_ECDHE_ECDSA_WITH_AES_256_GCM_SHA384);
  ("TLS_ECDHE_RSA_WITH_CHACHA20_POLY1305_SHA256", tls.TLS_ECDHE_RSA_WITH_CHACHA20_POLY1305_SHA256);
  ("TLS_ECDHE_ECDSA_WITH_CHACHA20_POLY1305_SHA256", tls.TLS_ECDHE_ECDSA_WITH_CHACHA20_POLY1305_SHA256);
  ("TLS_AES_128_GCM_SHA256", tls.TLS_AES_128_GCM_SHA256);
  ("TLS_AES_256_GCM_SHA384", tls.TLS_AES_256_GCM_SHA384);
  ("TLS_CHACHA20_POLY1305_SHA256", tls.TLS_CHACHA20_POLY1305_SHA256)
].

Definition cipherSuites : gmap string Z := list_to_map cipherSuiteTable.

(** a list of default ciphersuites to utilize *)
Definition defaultCipherSuites : list Z := [
  tls.TLS_ECDHE_ECDSA_WITH_AES_256_GCM_SHA384;
  tls.TLS_ECDHE_RSA_WITH_AES_256_GCM_SHA384;
  tls.TLS_ECDHE_ECDSA_WITH_CHACHA20_POLY1305_SHA256;
  tls.TLS_ECDHE_RSA_WITH_CHACHA20_POLY1305_SHA256;
  tls.TLS_ECDHE_ECDSA_WITH_AES_128_GCM_SHA256;
  tls.TLS_ECDHE_RSA_WITH_AES_128_GCM_SHA256;
  tls.TLS_AES_128_GCM_SHA256;
  tls.TLS_CHACHA20_POLY1305_SHA256;
  tls.TLS_AES_256_GCM_SHA384
].

Definition defaultTLSVersionStr : string := "tls1.2".

(** tlsVersions maps user-specified values to tls version constants. *)
Definition tlsVersions : gmap string Z :=
  list_to_map [("tls1.2", tls.VersionTLS12); ("tls1.3", tls.VersionTLS13)].

(** The loop of [getCipherSuites]: [i] is the index of the next name
    and [cipherSuiteConsts] the slice made for the result. *)
Fixpoint getCipherSuites_range (i : nat) (names : list string)
    (cipherSuiteConsts : list Z) : list Z + string :=
  match names with
  | [] => inl cipherSuiteConsts
  | name :: names =>
    match cipherSuites !! name with
    | None =>
      inr ("unknown TLS cipher suite '" ++ name
           ++ "' specified for http.tls.cipherSuites")
    | Some cipherSuiteConst =>
      getCipherSuites_range (S i) names (<[i := cipherSuiteConst]> cipherSuiteConsts)
    end
  end.

(** takes a list of cipher suites and converts it to a list of
    respective tls constants; if an empty list is provided, then the
    defaults will be used *)
Definition getCipherSuites (names : list string) : list Z + string :=
  if Nat.eqb (length names) 0 then inl defaultCipherSuites
  else getCipherSuites_range 0 names (replicate (length names) 0%Z).

Section CipherSuiteNames.
(** [tls.CipherSuiteName] *)
Variable CipherSuiteName : Z -> string.

Fixpoint getCipherSuiteNames_range (i : nat) (ids : list Z) (names : list string)
  : list string :=
  match ids with
  | [] => names
  | id :: ids =>
    getCipherSuiteNames_range (S i) ids (<[i := CipherSuiteName id]> names)
  end.

(** takes a list of cipher suite ids and converts it to a list of
    respective names; the [nil] slice is the empty list *)
Definition getCipherSuiteNames (ids : list Z) : list string :=
  if Nat.eqb (length ids) 0 then []
  else getCipherSuiteNames_range 0 ids (replicate (length ids) "").

End CipherSuiteNames.

(** [*acme.Client], by its one field that is set *)
Record acmeClient := { DirectoryURL : string }.

(** set ACME-server/DirectoryURL, if provided; [None] is [nil] *)
Definition setDirectoryURL (directoryurl : string) : option acmeClient :=
  if Nat.ltb 0 (String.length directoryurl)
  then Some {| DirectoryURL := directoryurl |}
  else None.

Definition nextProtos (config : configuration.Configuration) : list string :=
  match configuration.HTTP_HTTP2_Disabled config with
  | true => ["http/1.1"]
  | _ => ["h2"; "http/1.1"]
  end.

(** [acme.ALPNProto] *)
Definition ALPNProto : string := "acme-tls/1".

(** [autocert.Manager], by the fields that are set: the hosts of the
    white list, the directory of the cache, the e-mail address and the
    client; [Prompt] is [autocert.AcceptTOS]. *)
Record Manager := {
  HostPolicy : list string;
  Cache : string;
  Email : string;
  Client : option acmeClient
}.

(** [tls.Config], by the fields that are set.  [ClientCAs] is the pool,
    as the list of the PEM files added to it; [None] is [nil]. *)
Record tlsConfig (Certificate : Type) := {
  ClientAuth : tls.ClientAuthType;
  NextProtos : list string;
  MinVersion : Z;
  CipherSuites : list Z;
  GetCertificate : option Manager;
  Certificates : list Certificate;
  ClientCAs : option (list string)
}.
Arguments ClientAuth {Certificate} _.
Arguments NextProtos {Certificate} _.
Arguments MinVersion {Certificate} _.
Arguments CipherSuites {Certificate} _.
Arguments GetCertificate {Certificate} _.
Arguments Certificates {Certificate} _.
Arguments ClientCAs {Certificate} _.

(** The listener that is served: the one of [listener.NewListener], or
    [tls.NewListener] of it. *)
Inductive served (Listener Certificate : Type) :=
| Plain (ln : Listener)
| Secure (ln : Listener) (tlsConf : tlsConfig Certificate).
Arguments Plain {Listener Certificate} ln.
Arguments Secure {Listener Certificate} ln tlsConf.

(** How the server is started: [registry.server.Serve(ln)] at once, or
    in a goroutine, with the shutdown after [SIGTERM] bounded by the
    drain timeout. *)
Inductive started (Listener Certificate : Type) :=
| Serve (ln : served Listener Certificate)
| ServeAndDrain (ln : served Listener Certificate) (DrainTimeout : Z).
Arguments Serve {Listener Certificate} ln.
Arguments ServeAndDrain {Listener Certificate} ln DrainTimeout.

(** The listener that the server is given. *)
Definition listenerOf {Listener Certificate : Type}
    (s : started Listener Certificate) : served Listener Certificate :=
  match s with
  | Serve ln | ServeAndDrain ln _ => ln
  end.

Section ListenAndServe.
Variables Listener Certificate : Type.
(** [listener.NewListener] *)
Variable NewListener : string -> string -> Listener + string.
(** [tls.LoadX509KeyPair] *)
Variable LoadX509KeyPair : string -> string -> Certificate + string.
(** [os.ReadFile] *)
Variable ReadFile : string -> string + string.
(** Whether [pool.AppendCertsFromPEM] finds a certificate in the data. *)
Variable hasCertificate : string -> bool.

(** The loop over [config.HTTP.TLS.ClientCAs]. *)
Fixpoint readClientCAs (cas : list string) (pool : list string)
  : list string + string :=
  match cas with
  | [] => inl pool
  | ca :: cas =>
    match ReadFile ca with
    | inr err => inr err
    | inl caPem =>
      if hasCertificate caPem then readClientCAs cas (pool ++ [caPem])%list
      else inr "could not add CA to pool"
    end
  end.

(** [ListenAndServe], up to the start of the server: the result is the
    configuration as the method leaves it, and the error that it
    returns or the way in which it starts to serve. *)
Definition ListenAndServe (config : configuration.Configuration)
  : configuration.Configuration * (started Listener Certificate + string) :=
  match NewListener (configuration.HTTP_Net config) (configuration.HTTP_Addr config) with
  | inr err => (config, inr err)
  | inl ln =>
    let serve config ln :=
      if Z.eqb (configuration.HTTP_DrainTimeout config) 0
      then (config, inl (Serve ln))
      else (config, inl (ServeAndDrain ln (configuration.HTTP_DrainTimeout config))) in
    if negb (String.eqb (configuration.HTTP_TLS_Certificate config) "")
       || negb (String.eqb (configuration.HTTP_TLS_LetsEncrypt_CacheFile config) "")
    then
      let config :=
        if String.eqb (configuration.HTTP_TLS_MinimumTLS config) ""
        then configuration.set_HTTP_TLS_MinimumTLS defaultTLSVersionStr config
        else config in
      match tlsVersions !! configuration.HTTP_TLS_MinimumTLS config with
      | None =>
        (config,
         inr ("unknown minimum TLS level '" ++ configuration.HTTP_TLS_MinimumTLS config
              ++ "' specified for http.tls.minimumtls"))
      | Some tlsMinVersion =>
        let tlsCipherSuites :=
          (* configuring cipher suites are no longer supported after the tls1.3 *)
          if Z.ltb tls.VersionTLS12 tlsMinVersion then inl []
          else getCipherSuites (configuration.HTTP_TLS_CipherSuites config) in
        match tlsCipherSuites with
        | inr err => (config, inr err)
        | inl tlsCipherSuites =>
          let tlsConf :=
            {| ClientAuth := tls.NoClientCert;
               NextProtos := nextProtos config;
               MinVersion := tlsMinVersion;
               CipherSuites := tlsCipherSuites;
               GetCertificate := None;
               Certificates := [];
               ClientCAs := None |} in
          let certified :=
            if negb (String.eqb (configuration.HTTP_TLS_LetsEncrypt_CacheFile config) "")
            then
              if negb (String.eqb (configuration.HTTP_TLS_Certificate config) "")
              then inr "cannot specify both certificate and Let's Encrypt"
              else
                let m :=
                  {| HostPolicy := configuration.HTTP_TLS_LetsEncrypt_Hosts config;
                     Cache := configuration.HTTP_TLS_LetsEncrypt_CacheFile config;
                     Email := configuration.HTTP_TLS_LetsEncrypt_Email config;
                     Client :=
                       setDirectoryURL
                         (configuration.HTTP_TLS_LetsEncrypt_DirectoryURL config) |} in
                inl {| ClientAuth := ClientAuth tlsConf;
                       NextProtos := (NextProtos tlsConf ++ [ALPNProto])%list;
                       MinVersion := MinVersion tlsConf;
                       CipherSuites := CipherSuites tlsConf;
                       GetCertificate := Some m;
                       Certificates := Certificates tlsConf;
                       ClientCAs := ClientCAs tlsConf |}
            else
              match LoadX509KeyPair (configuration.HTTP_TLS_Certificate config)
                      (configuration.HTTP_TLS_Key config) with
              | inr err => inr err
              | inl certificate =>
                inl {| ClientAuth := ClientAuth tlsConf;
                       NextProtos := NextProtos tlsConf;
                       MinVersion := MinVersion tlsConf;
                       CipherSuites := CipherSuites tlsConf;
                       GetCertificate := GetCertificate tlsConf;
                       Certificates := [certificate];
                       ClientCAs := ClientCAs tlsConf |}
              end in
          match certified with
          | inr err => (config, inr err)
          | inl tlsConf =>
            let verified :=
              if negb (Nat.eqb (length (configuration.HTTP_TLS_ClientCAs config)) 0)
              then
                match readClientCAs (configuration.HTTP_TLS_ClientCAs config) [] with
                | inr err => inr err
                | inl pool =>
                  inl {| ClientAuth := tls.RequireAndVerifyClientCert;
                         NextProtos := NextProtos tlsConf;
                         MinVersion := MinVersion tlsConf;
                         CipherSuites := CipherSuites tlsConf;
                         GetCertificate := GetCertificate tlsConf;
                         Certificates := Certificates tlsConf;
                         ClientCAs := Some pool |}
                end
              else inl tlsConf in
            match verified with
            | inr err => (config, inr err)
            | inl tlsConf => serve config (Secure ln tlsConf)
            end
          end
        end
      end
    else serve config (Plain ln)
  end.

End ListenAndServe.

Section resolveConfiguration.
Variable File : Type.
(** [os.Getenv], [os.Open] and [configuration.Parse] *)
Variable Getenv : string -> string.
Variable Open : string -> File + string.
Variable Parse : File -> configuration.Configuration + string.

Definition resolveConfiguration (args : list string)
  : configuration.Configuration + string :=
  let configurationPath :=
    match args with
    | arg :: _ => arg
    | [] =>
      if negb (String.eqb (Getenv "REGISTRY_CONFIGURATION_PATH") "")
      then Getenv "REGISTRY_CONFIGURATION_PATH"
      else ""
    end in
  if String.eqb configurationPath "" then inr "configuration path unspecified"
  else
    match Open configurationPath with
    | inr err => inr err
    | inl fp =>
      match Parse fp with
      | inr err => inr ("error parsing " ++ configurationPath ++ ": " ++ err)
      | inl config => inl config
      end
    end.

End resolveConfiguration.

End registry.

(** ** The world around the registry, for the examples

    A [tls.CipherSuiteName] that reads [cipherSuiteTable] backwards, a
    listener that is the address it listens on, certificates and files
    that are their names, and a configuration. *)
Module RegistrySample.

Fixpoint nameIn (table : list (string * Z)) (id : Z) : string :=
  match table with
  | [] => "0x0000"
  | (name, id') :: table => if Z.eqb id id' then name else nameIn table id
  end.

Definition CipherSuiteName (id : Z) : string :=
  nameIn registry.cipherSuiteTable id.

Definition NewListener (net addr : string) : string + string :=
  if String.eqb addr "" then inr "listen: missing address"
  else inl (net ++ "://" ++ addr).

Definition LoadX509KeyPair (certFile keyFile : string) : string + string :=
  if String.eqb keyFile "" then inr "open : no such file or directory"
  else inl (certFile ++ "+" ++ keyFile).

Definition ReadFile (name : string) : string + string :=
  if String.eqb name "" then inr "open : no such file or directory"
  else inl ("PEM " ++ name).

Definition hasCertificate (data : string) : bool :=
  String.prefix "PEM " data.

Definition config : configuration.Configuration :=
  {| configuration.HTTP_Net := "tcp";
     configuration.HTTP_Addr := ":5000";
     configuration.HTTP_DrainTimeout := 0;
     configuration.HTTP_HTTP2_Disabled := false;
     configuration.HTTP_TLS_Certificate := "/certs/domain.crt";
     configuration.HTTP_TLS_Key := "/certs/domain.key";
     configuration.HTTP_TLS_ClientCAs := ["/certs/ca.pem"];
     configuration.HTTP_TLS_MinimumTLS := "";
     configuration.HTTP_TLS_CipherSuites := ["TLS_AES_128_GCM_SHA256"];
     configuration.HTTP_TLS_LetsEncrypt_CacheFile := "";
     configuration.HTTP_TLS_LetsEncrypt_Email := "";
     configuration.HTTP_TLS_LetsEncrypt_Hosts := [];
     configuration.HTTP_TLS_LetsEncrypt_DirectoryURL := "" |}.

(** The same without certificate: the registry serves plain HTTP. *)
Definition plain : configuration.Configuration :=
  {| configuration.HTTP_Net := "tcp";
     configuration.HTTP_Addr := ":5000";
     configuration.HTTP_DrainTimeout := 0;
     configuration.HTTP_HTTP2_Disabled := false;
     configuration.HTTP_TLS_Certificate := "";
     configuration.HTTP_TLS_Key := "";
     configuration.HTTP_TLS_ClientCAs := ["/certs/ca.pem"];
     configuration.HTTP_TLS_MinimumTLS := "tls1.0";
     configuration.HTTP_TLS_CipherSuites := ["TLS_AES_128_GCM_SHA256"];
     configuration.HTTP_TLS_LetsEncrypt_CacheFile := "";
     configuration.HTTP_TLS_LetsEncrypt_Email := "";
     configuration.HTTP_TLS_LetsEncrypt_Hosts := [];
     configuration.HTTP_TLS_LetsEncrypt_DirectoryURL := "" |}.

(** The same with a Let's Encrypt cache file beside the certificate. *)
Definition both : configuration.Configuration :=
  {| configuration.HTTP_Net := "tcp";
     configuration.HTTP_Addr := ":5000";
     configuration.HTTP_DrainTimeout := 0;
     configuration.HTTP_HTTP2_Disabled := false;
     configuration.HTTP_TLS_Certificate := "/certs/domain.crt";
     configuration.HTTP_TLS_Key := "/certs/domain.key";
     configuration.HTTP_TLS_ClientCAs := [];
     configuration.HTTP_TLS_MinimumTLS := "tls1.3";
     configuration.HTTP_TLS_CipherSuites := [];
     configuration.HTTP_TLS_LetsEncrypt_CacheFile := "/etc/registry/letsencrypt.json";
     configuration.HTTP_TLS_LetsEncrypt_Email := "";
     configuration.HTTP_TLS_LetsEncrypt_Hosts := [];
     configuration.HTTP_TLS_LetsEncrypt_DirectoryURL := "" |}.

Definition ListenAndServe :=
  registry.ListenAndServe string string NewListener LoadX509KeyPair ReadFile
    hasCertificate.

(** What [ListenAndServe config] gives to [tls.NewListener]. *)
Definition tlsConf : registry.tlsConfig string :=
  {| registry.ClientAuth := tls.RequireAndVerifyClientCert;
     registry.NextProtos := ["h2"; "http/1.1"];
     registry.MinVersion := tls.VersionTLS12;
     registry.CipherSuites := [tls.TLS_AES_128_GCM_SHA256];
     registry.GetCertificate := None;
     registry.Certificates := ["/certs/domain.crt+/certs/domain.key"];
     registry.ClientCAs := Some ["PEM /certs/ca.pem"] |}.

End RegistrySample.

(** * Properties *)

(** ** The cache and the digests *)
Section Contents.
Context {cache : Type}.
Context `{!lru.ARCCache descriptorCacheKey Descriptor cache}.

Lemma Get_frame k c k' x :
  lru.contents (lru.Get k c).2 !! k' = Some x -> lru.contents c !! k' = Some x.
Proof.
  intros Hx. eapply lookup_weaken; [exact Hx|apply lru.Get_subseteq].
Qed.

Lemma Add_frame k v c k' x :
  lru.contents (lru.Add k v c) !! k' = Some x ->
  (k' = k /\ x = v) \/ (k' <> k /\ lru.contents c !! k' = Some x).
Proof.
  intros Hx.
  assert (<[k:=v]> (lru.contents c) !! k' = Some x) as Hi
    by (eapply lookup_weaken; [exact Hx|apply lru.Add_subseteq]).
  apply lookup_insert_Some in Hi.
  destruct Hi as [[<- <-]|[Hne Hc]]; [by left|right; split; congruence].
Qed.

End Contents.

Section Digests.
Context `{!godigest.Validation}.

Lemma Validate_Algorithm d :
  godigest.Validate d = None -> is_Some (godigest.Algorithm d).
Proof.
  intros Hd. destruct (godigest.Validate_sepIndex d Hd) as [i Hi].
  unfold godigest.Algorithm. rewrite Hi. eauto.
Qed.

Lemma ValidateDescriptor_Digest desc :
  cache.ValidateDescriptor desc = None ->
  godigest.Validate (distribution.Digest desc) = None.
Proof.
  unfold cache.ValidateDescriptor.
  by destruct (godigest.Validate (distribution.Digest desc)).
Qed.

(** The guard of the self-call is false for the descriptor's own
    digest. *)
Lemma differ_own desc :
  imbdcp.differ (distribution.Digest desc) desc <> Some true.
Proof.
  unfold imbdcp.differ.
  destruct (godigest.Algorithm (distribution.Digest desc)) as [a|]; [|done].
  by rewrite String.eqb_refl.
Qed.

Lemma differ_valid d desc :
  godigest.Validate d = None ->
  cache.ValidateDescriptor desc = None ->
  is_Some (imbdcp.differ d desc).
Proof.
  intros Hd Hdesc. apply ValidateDescriptor_Digest in Hdesc.
  destruct (Validate_Algorithm _ Hd) as [a Ha].
  destruct (Validate_Algorithm _ Hdesc) as [a' Ha'].
  unfold imbdcp.differ. rewrite Ha, Ha'. eauto.
Qed.

End Digests.

(** ** The global provider *)
Section Provider.
Context {cache : Type}.
Context `{!lru.ARCCache descriptorCacheKey Descriptor cache}.
Context `{!godigest.Validation}.

Lemma Stat_invalid d e c :
  godigest.Validate d = Some e ->
  imbdcp.Stat d c = ((distribution.zero, Some (InvalidDigest e)), c).
Proof. intros Hd. unfold imbdcp.Stat. by rewrite Hd. Qed.

Lemma Stat_valid d c :
  godigest.Validate d = None ->
  imbdcp.Stat d c =
  (match lru.contents c !! globalKey d with
   | Some desc => (desc, None)
   | None => (distribution.zero, Some ErrBlobUnknown)
   end, (lru.Get (globalKey d) c).2).
Proof.
  intros Hd. unfold imbdcp.Stat. rewrite Hd.
  fold (globalKey d). rewrite <- lru.Get_value.
  by destruct (lru.Get (globalKey d) c) as [[desc|] c'].
Qed.

Lemma SetDescriptor_rec_invalid fuel d e desc c :
  godigest.Validate d = Some e ->
  imbdcp.SetDescriptor_rec (S fuel) d desc c
  = Some (Returns (Some (InvalidDigest e)) c).
Proof. intros Hd. cbn [imbdcp.SetDescriptor_rec]. by rewrite (Stat_invalid _ _ _ Hd). Qed.

Lemma SetDescriptor_rec_known fuel d x desc c :
  godigest.Validate d = None ->
  lru.contents c !! globalKey d = Some x ->
  imbdcp.SetDescriptor_rec (S fuel) d desc c
  = Some (Returns None (lru.Get (globalKey d) c).2).
Proof.
  intros Hd Hx. cbn [imbdcp.SetDescriptor_rec].
  by rewrite (Stat_valid _ _ Hd), Hx.
Qed.

Lemma SetDescriptor_rec_own fuel d desc c :
  godigest.Validate d = None ->
  cache.ValidateDescriptor desc = None ->
  imbdcp.differ d desc = Some false ->
  imbdcp.SetDescriptor_rec (S fuel) d desc c
  = Some (Returns None (registered d desc c)).
Proof.
  intros Hd Hdesc Hg. cbn [imbdcp.SetDescriptor_rec].
  rewrite (Stat_valid _ _ Hd). unfold registered.
  destruct (lru.contents c !! globalKey d); simpl; [done|].
  by rewrite Hg, Hd, Hdesc.
Qed.

Lemma SetDescriptor_rec_valid fuel d desc c :
  godigest.Validate d = None ->
  cache.ValidateDescriptor desc = None ->
  imbdcp.SetDescriptor_rec (S (S fuel)) d desc c
  = Some (Returns None (settled d desc c)).
Proof.
  intros Hd Hdesc. remember (S fuel) as n eqn:Hn.
  cbn [imbdcp.SetDescriptor_rec]. subst n.
  rewrite (Stat_valid _ _ Hd). unfold settled.
  destruct (lru.contents c !! globalKey d) as [x|] eqn:Hx;
    cbn [isErrBlobUnknown]; [done|].
  destruct (differ_valid d desc Hd Hdesc) as [[] Hg]; rewrite Hg.
  - pose proof (ValidateDescriptor_Digest _ Hdesc) as Hown.
    assert (imbdcp.differ (distribution.Digest desc) desc = Some false) as Hg'.
    { destruct (differ_valid _ desc Hown Hdesc) as [[] Hb]; [|done].
      by destruct (differ_own desc). }
    rewrite (SetDescriptor_rec_own _ _ _ _ Hown Hdesc Hg').
    by rewrite Hd, Hdesc.
  - by rewrite Hd, Hdesc.
Qed.

End Provider.

(** What [registered] and [settled] hold, whatever the cache evicts. *)
Section SettledContents.
Context {cache : Type}.
Context `{!lru.ARCCache descriptorCacheKey Descriptor cache}.
Context `{!godigest.Validation}.

Lemma registered_global d desc c :
  lru.contents (registered d desc c) !! globalKey d
  = Some (default desc (lru.contents c !! globalKey d)).
Proof.
  unfold registered.
  destruct (lru.contents c !! globalKey d) as [x|] eqn:Hx; simpl.
  - by rewrite lru.Get_same.
  - apply lru.Add_same.
Qed.

Lemma registered_frame d desc c k x :
  lru.contents (registered d desc c) !! k = Some x ->
  lru.contents c !! k = Some x \/ (k = globalKey d /\ x = desc).
Proof.
  unfold registered. destruct (lru.contents c !! globalKey d); intros Hk.
  - left. by eapply Get_frame.
  - apply Add_frame in Hk as [?|[_ Hk]]; [by right|].
    left. by eapply Get_frame.
Qed.

Lemma settled_global d desc c :
  lru.contents (settled d desc c) !! globalKey d
  = Some (default desc (lru.contents c !! globalKey d)).
Proof.
  unfold settled.
  destruct (lru.contents c !! globalKey d) as [x|] eqn:Hx; simpl.
  - by rewrite lru.Get_same.
  - destruct (imbdcp.differ d desc) as [[]|]; apply lru.Add_same.
Qed.

Lemma settled_frame d desc c k x :
  lru.contents (settled d desc c) !! k = Some x ->
  lru.contents c !! k = Some x
  \/ (x = desc /\ (k = globalKey d \/ k = globalKey (distribution.Digest desc))).
Proof.
  unfold settled. destruct (lru.contents c !! globalKey d); intros Hk.
  - left. by eapply Get_frame.
  - assert (forall c0, lru.contents (lru.Add (globalKey d) desc c0) !! k = Some x ->
                       (x = desc /\ k = globalKey d) \/ lru.contents c0 !! k = Some x)
      as Hadd.
    { intros c0 Hc0. apply Add_frame in Hc0 as [[-> ->]|[_ Hc0]]; auto. }
    destruct (imbdcp.differ d desc) as [[]|];
      apply Hadd in Hk as [[-> ->]|Hk]; auto;
      try (left; by eapply Get_frame).
    apply registered_frame in Hk as [Hk|[-> ->]]; auto.
    left. by eapply Get_frame.
Qed.

(** Only global keys are written. *)
Lemma settled_scoped d desc c k :
  repo k <> "" ->
  forall x, lru.contents (settled d desc c) !! k = Some x ->
            lru.contents c !! k = Some x.
Proof.
  intros Hk x Hx. apply settled_frame in Hx as [Hx|[_ [->| ->]]]; done.
Qed.

End SettledContents.

(** ** The scoped view *)
Section Scoped.
Context {cache : Type}.
Context `{!lru.ARCCache descriptorCacheKey Descriptor cache}.
Context `{!godigest.Validation} `{!reference.Normalization}.

Lemma RepositoryScoped_spec name :
  match reference.ParseNormalizedNamed name with
  | inl _ => imbdcp.RepositoryScoped name = inl {| view_repo := name |}
  | inr e => imbdcp.RepositoryScoped name = inr (InvalidRepositoryName e)
  end.
Proof.
  unfold imbdcp.RepositoryScoped.
  by destruct (reference.ParseNormalizedNamed name).
Qed.

Lemma RepositoryScoped_repo name v :
  imbdcp.RepositoryScoped name = inl v -> view_repo v = name /\ name <> "".
Proof.
  unfold imbdcp.RepositoryScoped.
  destruct (reference.ParseNormalizedNamed name) as [n|e] eqn:Hn; [|done].
  intros [= <-]. split; [done|]. intros ->.
  by apply reference.ParseNormalizedNamed_empty in Hn.
Qed.

Lemma scoped_Stat_invalid v d e c :
  godigest.Validate d = Some e ->
  rsimbdcp.Stat v d c = ((distribution.zero, Some (InvalidDigest e)), c).
Proof. intros Hd. unfold rsimbdcp.Stat. by rewrite Hd. Qed.

Lemma scoped_Stat_valid v d c :
  godigest.Validate d = None ->
  rsimbdcp.Stat v d c =
  (match lru.contents c !! scopedKey v d with
   | Some desc => (desc, None)
   | None => (distribution.zero, Some ErrBlobUnknown)
   end, (lru.Get (scopedKey v d) c).2).
Proof.
  intros Hd. unfold rsimbdcp.Stat. rewrite Hd.
  fold (scopedKey v d). rewrite <- lru.Get_value.
  by destruct (lru.Get (scopedKey v d) c) as [[desc|] c'].
Qed.

Lemma scoped_SetDescriptor_invalid v d e desc c :
  godigest.Validate d = Some e ->
  rsimbdcp.SetDescriptor v d desc c = Some (Returns (Some (InvalidDigest e)) c).
Proof. intros Hd. unfold rsimbdcp.SetDescriptor. by rewrite Hd. Qed.

Lemma scoped_SetDescriptor_valid v d desc c :
  godigest.Validate d = None ->
  cache.ValidateDescriptor desc = None ->
  rsimbdcp.SetDescriptor v d desc c
  = Some (Returns None (settled d desc (lru.Add (scopedKey v d) desc c))).
Proof.
  intros Hd Hdesc. unfold rsimbdcp.SetDescriptor. rewrite Hd, Hdesc.
  by apply SetDescriptor_rec_valid.
Qed.

End Scoped.

(** ** Termination of [SetDescriptor] *)
Section Termination.
Context {cache : Type}.
Context `{!lru.ARCCache descriptorCacheKey Descriptor cache}.
Context `{!godigest.Validation}.

Lemma differ_true d desc :
  imbdcp.differ d desc = Some true ->
  godigest.Algorithm d <> godigest.Algorithm (distribution.Digest desc)
  /\ d <> distribution.Digest desc.
Proof.
  unfold imbdcp.differ.
  destruct (godigest.Algorithm d) as [a|] eqn:Ha; [|done].
  destruct (godigest.Algorithm (distribution.Digest desc)) as [a'|] eqn:Ha'; [|done].
  intros [= Hg]. apply andb_true_iff in Hg as [Hg _].
  apply negb_true_iff, String.eqb_neq in Hg.
  split; [congruence|]. intros ->. congruence.
Qed.

(** Without the self-call one level is enough. *)
Lemma SetDescriptor_rec_flat d desc c :
  imbdcp.differ d desc <> Some true ->
  is_Some (imbdcp.SetDescriptor_rec 1 d desc c)
  /\ forall n, imbdcp.SetDescriptor_rec (S n) d desc c
               = imbdcp.SetDescriptor_rec 1 d desc c.
Proof.
  intros Hg. cbn [imbdcp.SetDescriptor_rec].
  destruct (imbdcp.Stat d c) as [[x err] c0].
  destruct (isErrBlobUnknown err); [|by eauto].
  destruct (imbdcp.differ d desc) as [[]|]; [done|..]; [|by eauto].
  split; [|done].
  destruct (godigest.Validate d); [by eauto|].
  destruct (cache.ValidateDescriptor desc); by eauto.
Qed.

Lemma SetDescriptor_rec_two d desc c :
  is_Some (imbdcp.SetDescriptor_rec 2 d desc c)
  /\ forall n, imbdcp.SetDescriptor_rec (2 + n) d desc c
               = imbdcp.SetDescriptor_rec 2 d desc c.
Proof.
  assert (forall n, imbdcp.SetDescriptor_rec (S (S n)) d desc c
                    = imbdcp.SetDescriptor_rec 2 d desc c) as Hn.
  { intros n. remember (S n) as m eqn:Hm. change 2%nat with (S 1).
    cbn [imbdcp.SetDescriptor_rec]. subst m.
    destruct (imbdcp.Stat d c) as [[x err] c0].
    destruct (isErrBlobUnknown err); [|done].
    destruct (imbdcp.differ d desc) as [[]|]; [|done..].
    destruct (SetDescriptor_rec_flat (distribution.Digest desc) desc c0
                (differ_own desc)) as [_ Hflat].
    by rewrite !Hflat. }
  split; [|exact Hn].
  destruct (imbdcp.differ d desc) as [[]|] eqn:Hg.
  - change 2%nat with (S 1). remember 1%nat as m eqn:Hm.
    cbn [imbdcp.SetDescriptor_rec]. subst m.
    destruct (imbdcp.Stat d c) as [[x err] c0].
    destruct (isErrBlobUnknown err); [|by eauto]. rewrite Hg.
    destruct (SetDescriptor_rec_flat (distribution.Digest desc) desc c0
                (differ_own desc)) as [[r Hr] _].
    rewrite Hr. destruct r as [[err'|] c1|c1]; [by eauto| |by eauto].
    destruct (godigest.Validate d); [by eauto|].
    destruct (cache.ValidateDescriptor desc); by eauto.
  - destruct (SetDescriptor_rec_flat d desc c) as [Hsome Hflat]; [congruence|].
    by rewrite Hflat.
  - destruct (SetDescriptor_rec_flat d desc c) as [Hsome Hflat]; [congruence|].
    by rewrite Hflat.
Qed.

(** C9: the global provider's [SetDescriptor] terminates for every
    input.  The self-call is made for the descriptor's own digest, for
    which the guard is not true; two levels of calls give the result for
    every digest, descriptor and cache, and more levels give the same
    result; one level is too few only when the guard holds, which is
    when the digest given and the descriptor's own differ in algorithm
    and in value. *)
Theorem SetDescriptor_terminates (d : godigest.Digest) (desc : Descriptor) (c : cache) :
  imbdcp.differ (distribution.Digest desc) desc <> Some true
  /\ (exists r, forall n, imbdcp.SetDescriptor_rec (2 + n) d desc c = Some r)
  /\ (imbdcp.SetDescriptor_rec 1 d desc c = None ->
      godigest.Algorithm d <> godigest.Algorithm (distribution.Digest desc)
      /\ d <> distribution.Digest desc).
Proof.
  split; [apply differ_own|]. split.
  - destruct (SetDescriptor_rec_two d desc c) as [[r Hr] Hn].
    exists r. intros n. by rewrite Hn.
  - intros Hnone. apply differ_true.
    destruct (imbdcp.differ d desc) as [[]|] eqn:Hg; [done|..];
      destruct (SetDescriptor_rec_flat d desc c) as [[r Hr] _]; congruence.
Qed.

End Termination.

(** ** The operations, for every cache *)
Section Operations.
Context {cache : Type}.
Context `{!lru.ARCCache descriptorCacheKey Descriptor cache}.
Context `{!godigest.Validation} `{!reference.Normalization}.

Lemma SetDescriptor_valid d desc c :
  godigest.Validate d = None ->
  cache.ValidateDescriptor desc = None ->
  imbdcp.SetDescriptor d desc c = Some (Returns None (settled d desc c)).
Proof. apply (SetDescriptor_rec_valid 0). Qed.

Lemma Stat_found d x c :
  godigest.Validate d = None ->
  lru.contents c !! globalKey d = Some x ->
  (imbdcp.Stat d c).1 = (x, None).
Proof. intros Hd Hx. by rewrite (Stat_valid _ _ Hd), Hx. Qed.

(** C2, as the code has it: for a digest that does not validate, [Stat]
    and [SetDescriptor], of the provider and of every scoped view, fail
    with the error of the validation and leave the cache as it was.
    [Clear] does not validate: it returns no error; its effect on the
    cache is the removal of the one key it builds, so that it too
    leaves as it was every cache whose keys have digests that validate,
    as those that the methods build have. *)
Theorem invalid_digest_gate (d : godigest.Digest) (e : godigest.failure)
    (v : repositoryScopedInMemoryBlobDescriptorCache) (desc : Descriptor) (c : cache) :
  godigest.Validate d = Some e ->
  imbdcp.Stat d c = ((distribution.zero, Some (InvalidDigest e)), c)
  /\ rsimbdcp.Stat v d c = ((distribution.zero, Some (InvalidDigest e)), c)
  /\ imbdcp.SetDescriptor d desc c = Some (Returns (Some (InvalidDigest e)) c)
  /\ rsimbdcp.SetDescriptor v d desc c = Some (Returns (Some (InvalidDigest e)) c)
  /\ (exists c', imbdcp.Clear d c = (None, c')
                 /\ lru.contents c' = delete (globalKey d) (lru.contents c)
                 /\ (wellFormed c -> lru.contents c' = lru.contents c))
  /\ (exists c', rsimbdcp.Clear v d c = (None, c')
                 /\ lru.contents c' = delete (scopedKey v d) (lru.contents c)
                 /\ (wellFormed c -> lru.contents c' = lru.contents c)).
Proof.
  intros Hd.
  assert (forall k, digest k = d -> wellFormed c ->
                    lru.contents (lru.Remove k c) = lru.contents c) as Hclear.
  { intros k Hk Hc. rewrite lru.Remove_contents. apply delete_id.
    destruct (lru.contents c !! k) as [x|] eqn:Hx; [|done].
    destruct (Hc k x Hx) as [Hvalid _]. congruence. }
  split; [by apply Stat_invalid|].
  split; [by apply scoped_Stat_invalid|].
  split; [by apply SetDescriptor_rec_invalid|].
  split; [by apply scoped_SetDescriptor_invalid|].
  split.
  - eexists. split; [reflexivity|]. split; [apply lru.Remove_contents|].
    by apply Hclear.
  - eexists. split; [reflexivity|]. split; [apply lru.Remove_contents|].
    by apply Hclear.
Qed.

(** C3: first writer wins on the global provider.  When [d] is not yet
    known, [SetDescriptor d descA] and then [SetDescriptor d descB]
    leave [Stat d] at [descA]; and in every cache an entry that is there
    for [d] is what [Stat d] gives after a [SetDescriptor] for [d]. *)
Theorem first_writer_wins (d : godigest.Digest) (descA descB : Descriptor) (c : cache) :
  godigest.Validate d = None ->
  cache.ValidateDescriptor descA = None ->
  (lru.contents c !! globalKey d = None ->
   exists c1 c2,
     imbdcp.SetDescriptor d descA c = Some (Returns None c1)
     /\ imbdcp.SetDescriptor d descB c1 = Some (Returns None c2)
     /\ (imbdcp.Stat d c2).1 = (descA, None))
  /\ (forall x, (imbdcp.Stat d c).1 = (x, None) ->
      exists c', imbdcp.SetDescriptor d descB c = Some (Returns None c')
                 /\ (imbdcp.Stat d c').1 = (x, None)).
Proof.
  intros Hd HA.
  assert (forall c0 x, lru.contents c0 !! globalKey d = Some x ->
            exists c', imbdcp.SetDescriptor d descB c0 = Some (Returns None c')
                       /\ (imbdcp.Stat d c').1 = (x, None)) as Hknown.
  { intros c0 x Hx. eexists. split.
    - by apply (SetDescriptor_rec_known 1 d x).
    - apply Stat_found; [done|]. by rewrite lru.Get_same. }
  split.
  - intros Hfresh. exists (settled d descA c).
    destruct (Hknown (settled d descA c) descA) as [c2 [H2 HS]].
    { by rewrite settled_global, Hfresh. }
    exists c2. split; [by apply SetDescriptor_valid|done].
  - intros x Hx. apply Hknown.
    rewrite (Stat_valid _ _ Hd) in Hx. simpl in Hx.
    destruct (lru.contents c !! globalKey d); congruence.
Qed.

(** C6, as the code has it: after [SetDescriptor d desc], for a valid
    digest and a valid descriptor of that digest, [Stat d] gives [desc]
    when [d] was not known before, and what was known for [d] when it
    was. *)
Theorem write_read_round_trip (d : godigest.Digest) (desc : Descriptor) (c : cache) :
  godigest.Validate d = None ->
  cache.ValidateDescriptor desc = None ->
  distribution.Digest desc = d ->
  exists c', imbdcp.SetDescriptor d desc c = Some (Returns None c')
             /\ (imbdcp.Stat d c').1
                = (default desc (lru.contents c !! globalKey d), None).
Proof.
  intros Hd Hdesc _. exists (settled d desc c).
  split; [by apply SetDescriptor_valid|].
  apply Stat_found; [done|]. apply settled_global.
Qed.

(** C4: repository isolation with global fan-out.  A [SetDescriptor]
    through the view of [R1] succeeds; whatever [Stat d] gives through
    the view of another repository [R2] afterwards, it gave before; and
    [Stat d] of the provider succeeds afterwards. *)
Theorem repository_isolation (R1 R2 : string)
    (v1 v2 : repositoryScopedInMemoryBlobDescriptorCache)
    (d : godigest.Digest) (desc : Descriptor) (c : cache) :
  imbdcp.RepositoryScoped R1 = inl v1 ->
  imbdcp.RepositoryScoped R2 = inl v2 ->
  R1 <> R2 ->
  godigest.Validate d = None ->
  cache.ValidateDescriptor desc = None ->
  exists c', rsimbdcp.SetDescriptor v1 d desc c = Some (Returns None c')
    /\ (forall x, (rsimbdcp.Stat v2 d c').1 = (x, None) ->
                  (rsimbdcp.Stat v2 d c).1 = (x, None))
    /\ (exists x, (imbdcp.Stat d c').1 = (x, None)).
Proof.
  intros Hv1 Hv2 HR Hd Hdesc.
  apply RepositoryScoped_repo in Hv1 as [Hr1 _].
  apply RepositoryScoped_repo in Hv2 as [Hr2 Hne2].
  eexists. split; [by apply scoped_SetDescriptor_valid|]. split.
  - intros x. rewrite !(scoped_Stat_valid _ _ _ Hd). simpl.
    destruct (lru.contents (settled _ _ _) !! scopedKey v2 d) as [y|] eqn:Hy;
      [|done].
    intros [= ->]. apply settled_scoped in Hy; [|simpl; congruence].
    apply Add_frame in Hy as [[Hk _]|[_ Hy]].
    + apply (f_equal repo) in Hk. simpl in Hk. congruence.
    + by rewrite Hy.
  - eexists. apply Stat_found; [done|]. apply settled_global.
Qed.

(** C5: the asymmetry of the scoped [Clear].  After a [SetDescriptor]
    through a view, [Clear] through the same view removes the key of the
    view and nothing else: the view's [Stat d] misses, the global entry
    is the one that was there, and the provider's [Stat d] gives it. *)
Theorem scoped_clear_asymmetry (R : string)
    (v : repositoryScopedInMemoryBlobDescriptorCache)
    (d : godigest.Digest) (desc : Descriptor) (c : cache) :
  imbdcp.RepositoryScoped R = inl v ->
  godigest.Validate d = None ->
  cache.ValidateDescriptor desc = None ->
  exists c1 c2 x,
    rsimbdcp.SetDescriptor v d desc c = Some (Returns None c1)
    /\ rsimbdcp.Clear v d c1 = (None, c2)
    /\ lru.contents c2 = delete {| digest := d; repo := R |} (lru.contents c1)
    /\ (rsimbdcp.Stat v d c2).1 = (distribution.zero, Some ErrBlobUnknown)
    /\ lru.contents c1 !! globalKey d = Some x
    /\ lru.contents c2 !! globalKey d = Some x
    /\ (imbdcp.Stat d c2).1 = (x, None).
Proof.
  intros Hv Hd Hdesc. apply RepositoryScoped_repo in Hv as [Hr Hne].
  destruct v as [r]. simpl in Hr. subst r.
  set (k := {| digest := d; repo := R |}).
  assert (k <> globalKey d) as Hg by (intros [= HR]; congruence).
  exists (settled d desc (lru.Add k desc c)),
         (lru.Remove k (settled d desc (lru.Add k desc c))),
         (default desc (lru.contents (lru.Add k desc c) !! globalKey d)).
  assert (lru.contents (lru.Remove k (settled d desc (lru.Add k desc c)))
          !! globalKey d
          = Some (default desc (lru.contents (lru.Add k desc c) !! globalKey d)))
    as Hx.
  { rewrite lru.Remove_contents, lookup_delete_ne by done.
    apply settled_global. }
  split; [by apply scoped_SetDescriptor_valid|].
  split; [reflexivity|].
  split; [apply lru.Remove_contents|].
  split.
  { rewrite (scoped_Stat_valid _ _ _ Hd). unfold scopedKey. simpl. fold k.
    by rewrite lru.Remove_contents, lookup_delete_eq. }
  split; [apply settled_global|].
  split; [exact Hx|].
  by apply Stat_found.
Qed.

End Operations.

(** ** Aliases, and the view's write beside a known global entry *)
Section Aliasing.
Context {cache : Type}.
Context `{!lru.ARCCache descriptorCacheKey Descriptor cache}.
Context `{!godigest.Validation} `{!reference.Normalization}.

Lemma differ_alias d desc :
  godigest.Validate d = None ->
  cache.ValidateDescriptor desc = None ->
  godigest.Algorithm d <> godigest.Algorithm (distribution.Digest desc) ->
  imbdcp.differ d desc = Some true.
Proof.
  intros Hd Hdesc Hne. apply ValidateDescriptor_Digest in Hdesc.
  destruct (Validate_Algorithm _ Hd) as [a Ha].
  destruct (Validate_Algorithm _ Hdesc) as [a' Ha'].
  unfold imbdcp.differ. rewrite Ha, Ha'. f_equal.
  apply andb_true_iff. split; apply negb_true_iff, String.eqb_neq.
  - congruence.
  - intros ->. congruence.
Qed.

Lemma differ_same d desc :
  godigest.Validate d = None ->
  cache.ValidateDescriptor desc = None ->
  godigest.Algorithm d = godigest.Algorithm (distribution.Digest desc) ->
  imbdcp.differ d desc = Some false.
Proof.
  intros Hd Hdesc Heq.
  destruct (Validate_Algorithm _ Hd) as [a Ha].
  unfold imbdcp.differ. rewrite <- Heq, Ha. by rewrite String.eqb_refl.
Qed.

Lemma Get_None k c k' :
  lru.contents c !! k' = None -> lru.contents (lru.Get k c).2 !! k' = None.
Proof.
  intros Hc. destruct (lru.contents (lru.Get k c).2 !! k') as [x|] eqn:Hx; [|done].
  apply Get_frame in Hx. congruence.
Qed.

Lemma Add_None k v c k' :
  k' <> k -> lru.contents c !! k' = None ->
  lru.contents (lru.Add k v c) !! k' = None.
Proof.
  intros Hk Hc. destruct (lru.contents (lru.Add k v c) !! k') as [x|] eqn:Hx; [|done].
  apply Add_frame in Hx as [[? _]|[_ Hx]]; congruence.
Qed.

(** C1, as the code has it, for every cache: [dAlias] validates,
    [ValidateDescriptor] admits [desc], whose own digest is another,
    and neither digest is known.  When the two digests are of different
    algorithms, the self-call registers the canonical entry first (it
    leaves a cache [c1] that has the canonical entry and not the
    alias), the alias entry is added to [c1], the call returns [nil],
    [Stat dAlias] gives [desc], and so does [Stat desc.Digest] when the
    [Add] of the alias entry has not evicted the canonical entry; the
    calls made to the cache are, in this order, the two lookups, the
    [Add] of the canonical entry and the [Add] of the alias entry.
    When the two digests are of the same algorithm the call returns
    [nil], [Stat dAlias] gives [desc] and the canonical digest stays
    unknown. *)
Theorem canonical_aliasing (dAlias : godigest.Digest) (desc : Descriptor) (c : cache) :
  godigest.Validate dAlias = None ->
  cache.ValidateDescriptor desc = None ->
  dAlias <> distribution.Digest desc ->
  lru.contents c !! globalKey dAlias = None ->
  lru.contents c !! globalKey (distribution.Digest desc) = None ->
  (godigest.Algorithm dAlias <> godigest.Algorithm (distribution.Digest desc) ->
   (exists c1 c',
      imbdcp.SetDescriptor_rec 1 (distribution.Digest desc) desc
        (imbdcp.Stat dAlias c).2 = Some (Returns None c1)
      /\ lru.contents c1 !! globalKey (distribution.Digest desc) = Some desc
      /\ lru.contents c1 !! globalKey dAlias = None
      /\ c' = lru.Add (globalKey dAlias) desc c1
      /\ imbdcp.SetDescriptor dAlias desc c = Some (Returns None c')
      /\ (imbdcp.Stat dAlias c').1 = (desc, None)
      /\ (lru.contents c' !! globalKey (distribution.Digest desc)
          = lru.contents c1 !! globalKey (distribution.Digest desc) ->
          (imbdcp.Stat (distribution.Digest desc) c').1 = (desc, None)))
   /\ (exists c',
         imbdcp.SetDescriptor dAlias desc (c, [])
         = Some (Returns None
                   (c', [Traced.Got (globalKey dAlias);
                         Traced.Got (globalKey (distribution.Digest desc));
                         Traced.Added (globalKey (distribution.Digest desc)) desc;
                         Traced.Added (globalKey dAlias) desc]))))
  /\ (godigest.Algorithm dAlias = godigest.Algorithm (distribution.Digest desc) ->
      exists c',
        imbdcp.SetDescriptor dAlias desc c = Some (Returns None c')
        /\ (imbdcp.Stat dAlias c').1 = (desc, None)
        /\ (imbdcp.Stat (distribution.Digest desc) c').1
           = (distribution.zero, Some ErrBlobUnknown)).
Proof.
  intros Hd Hdesc Hneq Halias Hcanon.
  pose proof (ValidateDescriptor_Digest _ Hdesc) as Hown.
  assert (globalKey (distribution.Digest desc) <> globalKey dAlias) as Hk
    by (intros [= Heq]; congruence).
  assert (imbdcp.differ (distribution.Digest desc) desc = Some false) as Hg'.
  { destruct (differ_valid _ desc Hown Hdesc) as [[] Hb]; [|done].
    by destruct (differ_own desc). }
  assert ((imbdcp.Stat dAlias c).2 = (lru.Get (globalKey dAlias) c).2) as Hc0
    by (by rewrite (Stat_valid _ _ Hd)).
  split.
  - intros Hne. pose proof (differ_alias _ _ Hd Hdesc Hne) as Hg.
    set (c0 := (lru.Get (globalKey dAlias) c).2) in *.
    assert (lru.contents c0 !! globalKey (distribution.Digest desc) = None)
      as Hcanon0 by (by apply Get_None).
    assert (registered (distribution.Digest desc) desc c0
            = lru.Add (globalKey (distribution.Digest desc)) desc
                (lru.Get (globalKey (distribution.Digest desc)) c0).2) as Hreg
      by (unfold registered; by rewrite Hcanon0).
    assert (settled dAlias desc c
            = lru.Add (globalKey dAlias) desc
                (registered (distribution.Digest desc) desc c0)) as Hset
      by (unfold settled; by rewrite Halias, Hg).
    split.
    + exists (registered (distribution.Digest desc) desc c0),
             (settled dAlias desc c).
      split; [rewrite Hc0; by apply SetDescriptor_rec_own|].
      split; [by rewrite registered_global, Hcanon0|].
      split.
      { rewrite Hreg. apply Add_None; [congruence|].
        apply Get_None. unfold c0. by apply Get_None. }
      split; [done|].
      split; [by apply SetDescriptor_valid|].
      split; [apply Stat_found; [done|]; by rewrite settled_global, Halias|].
      rewrite registered_global, Hcanon0. intros Hkept.
      by apply Stat_found.
    + eexists. rewrite (SetDescriptor_valid _ _ _ Hd Hdesc).
      unfold settled, registered.
      cbn [lru.contents Traced.arc fst snd lru.Get lru.Add].
      rewrite Halias, Hg. fold c0. rewrite Hcanon0. reflexivity.
  - intros Heq. pose proof (differ_same _ _ Hd Hdesc Heq) as Hg.
    exists (settled dAlias desc c).
    split; [by apply SetDescriptor_valid|].
    split; [apply Stat_found; [done|]; by rewrite settled_global, Halias|].
    rewrite (Stat_valid _ _ Hown).
    assert (lru.contents (settled dAlias desc c)
            !! globalKey (distribution.Digest desc) = None) as ->; [|done].
    unfold settled. rewrite Halias, Hg.
    apply Add_None; [done|]. by apply Get_None.
Qed.

(** C10, as the code has it, for every cache: for a valid digest and a
    valid descriptor the [SetDescriptor] of a scoped view returns no
    error, and the provider's [Stat d] succeeds afterwards.  When the
    provider held an entry [x] for [d] and the call evicts neither of
    the two entries (the [Add] of the view's entry leaves the global
    entry, the provider's lookup leaves the view's entry), the entry of
    the view is written, whatever it was before (the view's [Stat d]
    gives [desc]), and the global entry is left as it was (the
    provider's [Stat d] gives [x]). *)
Theorem scoped_SetDescriptor_succeeds (R : string)
    (v : repositoryScopedInMemoryBlobDescriptorCache)
    (d : godigest.Digest) (desc : Descriptor) (c : cache) :
  imbdcp.RepositoryScoped R = inl v ->
  godigest.Validate d = None ->
  cache.ValidateDescriptor desc = None ->
  exists c',
    rsimbdcp.SetDescriptor v d desc c = Some (Returns None c')
    /\ (exists y, (imbdcp.Stat d c').1 = (y, None))
    /\ forall x,
         lru.contents c !! globalKey d = Some x ->
         lru.contents (lru.Add {| digest := d; repo := R |} desc c) !! globalKey d
         = lru.contents c !! globalKey d ->
         lru.contents
           (lru.Get (globalKey d) (lru.Add {| digest := d; repo := R |} desc c)).2
           !! {| digest := d; repo := R |}
         = lru.contents (lru.Add {| digest := d; repo := R |} desc c)
             !! {| digest := d; repo := R |} ->
         lru.contents c' !! {| digest := d; repo := R |} = Some desc
         /\ lru.contents c' !! globalKey d = Some x
         /\ (rsimbdcp.Stat v d c').1 = (desc, None)
         /\ (imbdcp.Stat d c').1 = (x, None).
Proof.
  intros Hv Hd Hdesc. apply RepositoryScoped_repo in Hv as [Hr Hne].
  destruct v as [r]. simpl in Hr. subst r.
  set (k := {| digest := d; repo := R |}).
  exists (settled d desc (lru.Add k desc c)).
  split; [by apply scoped_SetDescriptor_valid|].
  split; [eexists; apply Stat_found; [done|apply settled_global]|].
  intros x Hx Hadd Hget.
  assert (settled d desc (lru.Add k desc c)
          = (lru.Get (globalKey d) (lru.Add k desc c)).2) as ->
    by (unfold settled; by rewrite Hadd, Hx).
  assert (lru.contents (lru.Get (globalKey d) (lru.Add k desc c)).2 !! k = Some desc)
    as Hk by (by rewrite Hget, lru.Add_same).
  assert (lru.contents (lru.Get (globalKey d) (lru.Add k desc c)).2 !! globalKey d
          = Some x) as Hglobal by (by rewrite lru.Get_same, Hadd).
  split; [done|]. split; [done|]. split.
  - rewrite (scoped_Stat_valid _ _ _ Hd). unfold scopedKey. simpl. fold k.
    by rewrite Hk.
  - by apply Stat_found.
Qed.

End Aliasing.

(** ** Construction *)
Section Construction.
Context {cache : Type}.
Context `{!lru.ARCCache descriptorCacheKey Descriptor cache}.
Context `{!lru.Constructor descriptorCacheKey Descriptor cache}.
Context `{!godigest.Validation} `{!reference.Normalization}.

(** C7, as the code has it: a size that is zero or negative is what
    [NewARC] rejects, and the provider never passes it on: it replaces
    it by [math.MaxInt], and the construction gives a provider with an
    empty cache. *)
Theorem provider_construction (size : Z) :
  (size <= 0)%Z ->
  lru.NewARC (cache:=cache) size = None
  /\ imbdcp.NewInMemoryBlobDescriptorCacheProvider size
     = lru.NewARC (cache:=cache) MaxInt
  /\ exists c : cache,
       imbdcp.NewInMemoryBlobDescriptorCacheProvider size = Some c
       /\ lru.contents c = ∅.
Proof.
  intros Hsize. split; [by apply lru.NewARC_size|].
  unfold imbdcp.NewInMemoryBlobDescriptorCacheProvider.
  destruct (Z.leb_spec size 0) as [_|Hlt]; [|lia].
  destruct (lru.NewARC (cache:=cache) MaxInt) as [c|] eqn:Hc.
  - split; [done|]. exists c. split; [done|]. by eapply lru.NewARC_contents.
  - apply lru.NewARC_size in Hc. unfold MaxInt in Hc. lia.
Qed.

(** The calls that the provider's methods make to the cache are for
    global keys. *)
Lemma Stat_trace d (s : cache * list (Traced.call descriptorCacheKey Descriptor)) :
  exists log, (imbdcp.Stat d s).2.2 = (s.2 ++ log)%list
              /\ Forall (fun a => repo (Traced.key a) = "") log.
Proof.
  unfold imbdcp.Stat. destruct (godigest.Validate d).
  - exists []. by rewrite app_nil_r.
  - cbn [lru.Get Traced.arc].
    exists [Traced.Got {| digest := d; repo := "" |}].
    split; [|by repeat constructor].
    by destruct (lru.Get _ s.1) as [[x|] c'].
Qed.

Lemma SetDescriptor_rec_trace fuel d desc
    (s : cache * list (Traced.call descriptorCacheKey Descriptor)) r :
  imbdcp.SetDescriptor_rec fuel d desc s = Some r ->
  exists log, (cache_of r).2 = (s.2 ++ log)%list
              /\ Forall (fun a => repo (Traced.key a) = "") log.
Proof.
  revert d s r. induction fuel as [|fuel IH]; intros d s r; [done|].
  cbn [imbdcp.SetDescriptor_rec].
  destruct (Stat_trace d s) as [log0 [Hlog0 Hall0]].
  destruct (imbdcp.Stat d s) as [[x err] s0]. simpl in Hlog0.
  destruct (isErrBlobUnknown err).
  2:{ intros [= <-]. by exists log0. }
  assert (forall r0 : outcome _ (option error),
            (exists log, (cache_of r0).2 = (s0.2 ++ log)%list
                         /\ Forall (fun a => repo (Traced.key a) = "") log) ->
            forall r',
            match r0 with
            | Returns (Some err0) c1 => Some (Returns (Some err0) c1)
            | Returns None c1 =>
              match godigest.Validate d with
              | Some err0 => Some (Returns (Some (InvalidDigest err0)) c1)
              | None =>
                match cache.ValidateDescriptor desc with
                | Some err0 => Some (Returns (Some err0) c1)
                | None =>
                  Some (Returns None (lru.Add {| digest := d; repo := "" |} desc c1))
                end
              end
            | Panics c1 => Some (Panics c1)
            end = Some r' ->
            exists log, (cache_of r').2 = (s.2 ++ log)%list
                        /\ Forall (fun a => repo (Traced.key a) = "") log) as Hrest.
  { intros r0 [log1 [Hlog1 Hall1]] r' Hr'.
    assert (exists log, (cache_of r0).2 = (s.2 ++ log)%list
                        /\ Forall (fun a => repo (Traced.key a) = "") log) as Hr0.
    { exists (log0 ++ log1)%list. rewrite Hlog1, Hlog0, app_assoc.
      split; [done|]. by apply Forall_app. }
    destruct r0 as [[e0|] c1|c1]; [by injection Hr' as <-| |by injection Hr' as <-].
    destruct (godigest.Validate d); [by injection Hr' as <-|].
    destruct (cache.ValidateDescriptor desc); [by injection Hr' as <-|].
    injection Hr' as <-. destruct Hr0 as [log [Hlog Hall]]. simpl in *.
    exists (log ++ [Traced.Added {| digest := d; repo := "" |} desc])%list.
    rewrite Hlog, app_assoc. split; [done|].
    apply Forall_app. split; [done|]. by repeat constructor. }
  destruct (imbdcp.differ d desc) as [[]|].
  - destruct (imbdcp.SetDescriptor_rec fuel (distribution.Digest desc) desc s0)
      as [r0|] eqn:Hr0; [|done].
    intros Hr. eapply (Hrest r0); [by eapply IH|exact Hr].
  - intros Hr. eapply (Hrest (Returns None s0)); [|exact Hr].
    exists []. by rewrite app_nil_r.
  - intros Hr. eapply (Hrest (Panics s0)); [|exact Hr].
    exists []. by rewrite app_nil_r.
Qed.

(** C8, as the code has it: the construction of a scoped view fails
    with the error of [ParseNormalizedNamed] when the name given cannot
    be normalized.  When it can, the view keeps the name as it was
    given, which is not empty, and not its normalized form: the view's
    [Stat] and [Clear] call the cache with the key of the digest and
    that name, and its [SetDescriptor] adds under that key before the
    provider's calls, which are for global keys. *)
Theorem scoped_view_construction (name : string) :
  match reference.ParseNormalizedNamed name with
  | inr e => imbdcp.RepositoryScoped name = inr (InvalidRepositoryName e)
  | inl _ =>
    exists v,
      imbdcp.RepositoryScoped name = inl v
      /\ view_repo v = name
      /\ name <> ""
      /\ forall (d : godigest.Digest) (desc : Descriptor) (c : cache),
           let key := {| digest := d; repo := name |} in
           Forall (fun a => a = Traced.Got key) (rsimbdcp.Stat v d (c, [])).2.2
           /\ (rsimbdcp.Clear v d (c, [])).2.2 = [Traced.Removed key]
           /\ forall r, rsimbdcp.SetDescriptor v d desc (c, []) = Some r ->
                (cache_of r).2 = []
                \/ exists log,
                     (cache_of r).2 = Traced.Added key desc :: log
                     /\ Forall (fun a => repo (Traced.key a) = "") log
  end.
Proof.
  pose proof (RepositoryScoped_spec name) as Hspec.
  destruct (reference.ParseNormalizedNamed name) as [n|e] eqn:Hn; [|done].
  exists {| view_repo := name |}.
  destruct (RepositoryScoped_repo _ _ Hspec) as [_ Hne].
  repeat split; try done.
  - unfold rsimbdcp.Stat. destruct (godigest.Validate d); [by constructor|].
    cbn [lru.Get Traced.arc view_repo].
    destruct (lru.Get _ _) as [[x|] c']; by repeat constructor.
  - intros r. unfold rsimbdcp.SetDescriptor.
    destruct (godigest.Validate d); [intros [= <-]; by left|].
    destruct (cache.ValidateDescriptor desc); [intros [= <-]; by left|].
    intros Hr. right. apply SetDescriptor_rec_trace in Hr as [log [Hlog Hall]].
    exists log. by rewrite Hlog.
Qed.

End Construction.

(** * The theorems at work, and where the statements of the
      specification stop *)
Import Sample.

Lemma canonical_aliasing_witness :
  godigest.Validate a256 = None
  /\ cache.ValidateDescriptor (layer c512 1024) = None
  /\ a256 <> distribution.Digest (layer c512 1024)
  /\ godigest.Algorithm a256 <> godigest.Algorithm c512
  /\ exists c' : bounded,
       imbdcp.SetDescriptor a256 (layer c512 1024)
         {| BoundedCache.cap := 2; BoundedCache.items := [] |}
       = Some (Returns None c')
       /\ (imbdcp.Stat a256 c').1 = (layer c512 1024, None)
       /\ (imbdcp.Stat c512 c').1 = (layer c512 1024, None).
Proof.
  split; [vm_compute; reflexivity|].
  split; [vm_compute; reflexivity|].
  split; [vm_compute; discriminate|].
  split; [vm_compute; discriminate|].
  destruct (canonical_aliasing (cache:=bounded) a256 (layer c512 1024)
              {| BoundedCache.cap := 2; BoundedCache.items := [] |})
    as [Hdiffer _].
  - vm_compute; reflexivity.
  - vm_compute; reflexivity.
  - vm_compute; discriminate.
  - vm_compute; reflexivity.
  - vm_compute; reflexivity.
  - destruct Hdiffer as [(c1 & c' & Hc1 & _ & _ & -> & Hset & Halias & Hcanon) _];
      [vm_compute; discriminate|].
    exists (lru.Add (globalKey a256) (layer c512 1024) c1).
    split; [exact Hset|]. split; [exact Halias|].
    apply Hcanon. vm_compute in Hc1. injection Hc1 as <-.
    vm_compute; reflexivity.
Defined.

(** The alias and the descriptor's own digest are both sha256 digests:
    the canonical entry is not registered.  And in a provider of
    capacity 1 the [Add] of the alias entry evicts the canonical entry
    that the self-call has registered. *)
Lemma alias_of_same_algorithm :
  (godigest.Validate a256 = None
   /\ cache.ValidateDescriptor (Sample.layer b256 1024) = None
   /\ distribution.Digest (Sample.layer b256 1024) <> a256
   /\ exists c' : store,
        imbdcp.SetDescriptor a256 (Sample.layer b256 1024) ∅
        = Some (Returns None c')
        /\ (imbdcp.Stat a256 c').1 = (Sample.layer b256 1024, None)
        /\ (imbdcp.Stat b256 c').1 = (distribution.zero, Some ErrBlobUnknown))
  /\ (cache.ValidateDescriptor (layer c512 1024) = None
      /\ godigest.Algorithm a256 <> godigest.Algorithm c512
      /\ exists c0 c' : bounded,
           imbdcp.NewInMemoryBlobDescriptorCacheProvider 1 = Some c0
           /\ imbdcp.SetDescriptor a256 (layer c512 1024) c0 = Some (Returns None c')
           /\ (imbdcp.Stat a256 c').1 = (layer c512 1024, None)
           /\ (imbdcp.Stat c512 c').1 = (distribution.zero, Some ErrBlobUnknown)).
Proof.
  split.
  - split; [vm_compute; reflexivity|].
    split; [vm_compute; reflexivity|].
    split; [vm_compute; discriminate|].
    exists (<[globalKey a256 := Sample.layer b256 1024]> ∅).
    repeat split; vm_compute; reflexivity.
  - split; [vm_compute; reflexivity|].
    split; [vm_compute; discriminate|].
    exists {| BoundedCache.cap := 1; BoundedCache.items := [] |},
           {| BoundedCache.cap := 1;
              BoundedCache.items := [(globalKey a256, layer c512 1024)] |}.
    repeat split; vm_compute; reflexivity.
Qed.

Lemma invalid_digest_gate_witness :
  godigest.Validate "sha256" = Some godigest.ErrDigestInvalidFormat
  /\ imbdcp.Stat "sha256" (∅ : store)
     = ((distribution.zero, Some (InvalidDigest godigest.ErrDigestInvalidFormat)), ∅)
  /\ rsimbdcp.SetDescriptor ubuntu "sha256" (Sample.layer a256 1) (∅ : store)
     = Some (Returns (Some (InvalidDigest godigest.ErrDigestInvalidFormat)) ∅).
Proof.
  split; [vm_compute; reflexivity|].
  destruct (invalid_digest_gate (cache:=store) "sha256"
              godigest.ErrDigestInvalidFormat ubuntu (Sample.layer a256 1) ∅)
    as (HS & _ & _ & HD & _); [vm_compute; reflexivity|].
  split; [exact HS|exact HD].
Defined.

(** [Clear] with a string that is no digest returns no error. *)
Lemma Clear_does_not_validate :
  godigest.Validate "sha256" = Some godigest.ErrDigestInvalidFormat
  /\ imbdcp.Clear "sha256" (∅ : store) = (None, ∅)
  /\ rsimbdcp.Clear ubuntu "sha256" (∅ : store) = (None, ∅).
Proof. repeat split; vm_compute; reflexivity. Qed.

Lemma first_writer_wins_witness :
  godigest.Validate a256 = None
  /\ cache.ValidateDescriptor (Sample.layer a256 1) = None
  /\ exists c1 c2 : store,
       imbdcp.SetDescriptor a256 (Sample.layer a256 1) ∅ = Some (Returns None c1)
       /\ imbdcp.SetDescriptor a256 (Sample.layer a256 2) c1 = Some (Returns None c2)
       /\ (imbdcp.Stat a256 c2).1 = (Sample.layer a256 1, None).
Proof.
  split; [vm_compute; reflexivity|].
  split; [vm_compute; reflexivity|].
  apply (first_writer_wins (cache:=store) a256 (Sample.layer a256 1)
           (Sample.layer a256 2) ∅).
  - vm_compute; reflexivity.
  - vm_compute; reflexivity.
  - reflexivity.
Defined.

Lemma repository_isolation_witness :
  imbdcp.RepositoryScoped "library/ubuntu" = inl ubuntu
  /\ imbdcp.RepositoryScoped "library/alpine" = inl alpine
  /\ exists c' : store,
       rsimbdcp.SetDescriptor ubuntu a256 (Sample.layer a256 1) ∅
       = Some (Returns None c')
       /\ (forall x, (rsimbdcp.Stat alpine a256 c').1 = (x, None) ->
                     (rsimbdcp.Stat alpine a256 (∅ : store)).1 = (x, None))
       /\ (exists x, (imbdcp.Stat a256 c').1 = (x, None)).
Proof.
  split; [vm_compute; reflexivity|].
  split; [vm_compute; reflexivity|].
  apply (repository_isolation (cache:=store) "library/ubuntu" "library/alpine").
  - vm_compute; reflexivity.
  - vm_compute; reflexivity.
  - discriminate.
  - vm_compute; reflexivity.
  - vm_compute; reflexivity.
Defined.

Lemma scoped_clear_asymmetry_witness :
  imbdcp.RepositoryScoped "library/ubuntu" = inl ubuntu
  /\ exists (c1 c2 : store) x,
       rsimbdcp.SetDescriptor ubuntu a256 (Sample.layer a256 1) ∅
       = Some (Returns None c1)
       /\ rsimbdcp.Clear ubuntu a256 c1 = (None, c2)
       /\ (rsimbdcp.Stat ubuntu a256 c2).1 = (distribution.zero, Some ErrBlobUnknown)
       /\ (imbdcp.Stat a256 c2).1 = (x, None).
Proof.
  split; [vm_compute; reflexivity|].
  destruct (scoped_clear_asymmetry (cache:=store) "library/ubuntu" ubuntu a256
              (Sample.layer a256 1) ∅)
    as (c1 & c2 & x & H1 & H2 & _ & H3 & _ & _ & H4);
    [vm_compute; reflexivity..|].
  exists c1, c2, x. repeat split; assumption.
Defined.

Lemma write_read_round_trip_witness :
  godigest.Validate a256 = None
  /\ cache.ValidateDescriptor (Sample.layer a256 1) = None
  /\ exists c' : store,
       imbdcp.SetDescriptor a256 (Sample.layer a256 1) ∅ = Some (Returns None c')
       /\ (imbdcp.Stat a256 c').1 = (Sample.layer a256 1, None).
Proof.
  split; [vm_compute; reflexivity|].
  split; [vm_compute; reflexivity|].
  destruct (write_read_round_trip (cache:=store) a256 (Sample.layer a256 1) ∅)
    as (c' & Hset & Hstat); [vm_compute; reflexivity..|].
  exists c'. split; [exact Hset|exact Hstat].
Defined.

(** A second write for a digest that is known succeeds, and [Stat]
    gives the descriptor of the first. *)
Lemma write_read_known_digest :
  godigest.Validate a256 = None
  /\ cache.ValidateDescriptor (Sample.layer a256 2) = None
  /\ distribution.Digest (Sample.layer a256 2) = a256
  /\ exists c1 c2 : store,
       imbdcp.SetDescriptor a256 (Sample.layer a256 1) ∅ = Some (Returns None c1)
       /\ imbdcp.SetDescriptor a256 (Sample.layer a256 2) c1 = Some (Returns None c2)
       /\ (imbdcp.Stat a256 c2).1 = (Sample.layer a256 1, None)
       /\ Sample.layer a256 1 <> Sample.layer a256 2.
Proof.
  split; [vm_compute; reflexivity|].
  split; [vm_compute; reflexivity|].
  split; [reflexivity|].
  exists (<[globalKey a256 := Sample.layer a256 1]> ∅),
         (<[globalKey a256 := Sample.layer a256 1]> ∅).
  repeat split; try (vm_compute; reflexivity). discriminate.
Qed.

Lemma scoped_SetDescriptor_succeeds_witness :
  imbdcp.RepositoryScoped "library/ubuntu" = inl ubuntu
  /\ godigest.Validate a256 = None
  /\ cache.ValidateDescriptor (layer a256 2) = None
  /\ exists c' : bounded,
       rsimbdcp.SetDescriptor ubuntu a256 (layer a256 2)
         {| BoundedCache.cap := 2;
            BoundedCache.items := [(globalKey a256, layer a256 1)] |}
       = Some (Returns None c')
       /\ (rsimbdcp.Stat ubuntu a256 c').1 = (layer a256 2, None)
       /\ (imbdcp.Stat a256 c').1 = (layer a256 1, None).
Proof.
  split; [vm_compute; reflexivity|].
  split; [vm_compute; reflexivity|].
  split; [vm_compute; reflexivity|].
  destruct (scoped_SetDescriptor_succeeds (cache:=bounded) "library/ubuntu" ubuntu
              a256 (layer a256 2)
              {| BoundedCache.cap := 2;
                 BoundedCache.items := [(globalKey a256, layer a256 1)] |})
    as (c' & Hset & _ & Hknown); [vm_compute; reflexivity..|].
  exists c'. split; [exact Hset|].
  destruct (Hknown (layer a256 1)) as (_ & _ & Hview & Hglobal);
    [vm_compute; reflexivity..|].
  split; [exact Hview|exact Hglobal].
Defined.

(** A provider of capacity 1 that knows [a256]: the [Add] of the view
    evicts the global entry, and the provider's [SetDescriptor], which
    no longer finds it, registers the new descriptor in its place. *)
Lemma scoped_SetDescriptor_evicts_global :
  imbdcp.RepositoryScoped "library/ubuntu" = inl ubuntu
  /\ godigest.Validate a256 = None
  /\ cache.ValidateDescriptor (layer a256 2) = None
  /\ layer a256 1 <> layer a256 2
  /\ exists c0 c1 c2 : bounded,
       imbdcp.NewInMemoryBlobDescriptorCacheProvider 1 = Some c0
       /\ imbdcp.SetDescriptor a256 (layer a256 1) c0 = Some (Returns None c1)
       /\ (imbdcp.Stat a256 c1).1 = (layer a256 1, None)
       /\ rsimbdcp.SetDescriptor ubuntu a256 (layer a256 2) c1
          = Some (Returns None c2)
       /\ (imbdcp.Stat a256 c2).1 = (layer a256 2, None).
Proof.
  split; [vm_compute; reflexivity|].
  split; [vm_compute; reflexivity|].
  split; [vm_compute; reflexivity|].
  split; [discriminate|].
  exists {| BoundedCache.cap := 1; BoundedCache.items := [] |},
         {| BoundedCache.cap := 1;
            BoundedCache.items := [(globalKey a256, layer a256 1)] |},
         {| BoundedCache.cap := 1;
            BoundedCache.items := [(globalKey a256, layer a256 2)] |}.
  repeat split; vm_compute; reflexivity.
Qed.

Lemma provider_construction_witness :
  (0 <= 0)%Z
  /\ lru.NewARC (cache:=bounded) 0 = None
  /\ exists c : bounded,
       imbdcp.NewInMemoryBlobDescriptorCacheProvider 0 = Some c
       /\ lru.contents c = ∅.
Proof.
  split; [lia|].
  destruct (provider_construction (cache:=bounded) 0) as (Hnew & _ & Hc); [lia|].
  split; [exact Hnew|exact Hc].
Defined.

(** The construction with capacity [0], and with a negative capacity,
    gives a provider: one of capacity [math.MaxInt]. *)
Lemma NewProvider_accepts_zero :
  imbdcp.NewInMemoryBlobDescriptorCacheProvider (cache:=bounded) 0
  = Some {| BoundedCache.cap := Z.to_pos MaxInt; BoundedCache.items := [] |}
  /\ imbdcp.NewInMemoryBlobDescriptorCacheProvider (cache:=bounded) (-5)
     = Some {| BoundedCache.cap := Z.to_pos MaxInt; BoundedCache.items := [] |}.
Proof. split; vm_compute; reflexivity. Qed.

(** The view made for ["ubuntu"] works under the key ["ubuntu"], which
    is not the normalized name. *)
Lemma scoped_view_keeps_given_name :
  reference.ParseNormalizedNamed "ubuntu" = inl "docker.io/library/ubuntu"
  /\ exists v,
       imbdcp.RepositoryScoped "ubuntu" = inl v
       /\ view_repo v <> "docker.io/library/ubuntu"
       /\ (rsimbdcp.Stat v a256 ((∅ : store), [])).2.2
          = [Traced.Got {| digest := a256; repo := "ubuntu" |}]
       /\ (rsimbdcp.Clear v a256 ((∅ : store), [])).2.2
          = [Traced.Removed {| digest := a256; repo := "ubuntu" |}]
       /\ (fun r => (cache_of r).2)
            <$> rsimbdcp.SetDescriptor v a256 (layer a256 1) ((∅ : store), [])
          = Some [Traced.Added {| digest := a256; repo := "ubuntu" |} (layer a256 1);
                  Traced.Got (globalKey a256);
                  Traced.Added (globalKey a256) (layer a256 1)].
Proof.
  split; [vm_compute; reflexivity|].
  exists {| view_repo := "ubuntu" |}.
  split; [vm_compute; reflexivity|].
  split; [discriminate|].
  repeat split; vm_compute; reflexivity.
Qed.

(** * Further properties of the cache *)
Section Invariants.
Context {cache : Type}.
Context `{!lru.ARCCache descriptorCacheKey Descriptor cache}.
Context `{!godigest.Validation}.

Lemma Stat_cache d c :
  (imbdcp.Stat d c).2 = c \/ (imbdcp.Stat d c).2 = (lru.Get (globalKey d) c).2.
Proof.
  unfold imbdcp.Stat. destruct (godigest.Validate d); [by left|right].
  fold (globalKey d). by destruct (lru.Get (globalKey d) c) as [[x|] c'].
Qed.

Lemma scoped_Stat_cache v d c :
  (rsimbdcp.Stat v d c).2 = c
  \/ (rsimbdcp.Stat v d c).2 = (lru.Get (scopedKey v d) c).2.
Proof.
  unfold rsimbdcp.Stat. destruct (godigest.Validate d); [by left|right].
  fold (scopedKey v d). by destruct (lru.Get (scopedKey v d) c) as [[x|] c'].
Qed.

Lemma Stat_unknown_valid d c x c' :
  imbdcp.Stat d c = ((x, Some ErrBlobUnknown), c') -> godigest.Validate d = None.
Proof.
  unfold imbdcp.Stat. destruct (godigest.Validate d); [intros [=]|done].
Qed.

(** A property of the cache that lookups keep, and that the [Add] of a
    validated global entry keeps, holds after [SetDescriptor]. *)
Lemma SetDescriptor_rec_invariant (P : cache -> Prop) :
  (forall k c, P c -> P (lru.Get k c).2) ->
  (forall d desc c,
     godigest.Validate d = None -> cache.ValidateDescriptor desc = None ->
     P c -> P (lru.Add (globalKey d) desc c)) ->
  forall fuel d desc c r,
    P c -> imbdcp.SetDescriptor_rec fuel d desc c = Some r -> P (cache_of r).
Proof.
  intros HGet HAdd fuel. induction fuel as [|fuel IH]; intros d desc c r Hc; [done|].
  cbn [imbdcp.SetDescriptor_rec].
  assert (P (imbdcp.Stat d c).2) as Hc0
    by (destruct (Stat_cache d c) as [-> | ->]; auto).
  destruct (imbdcp.Stat d c) as [[x err] c0]. simpl in Hc0.
  destruct (isErrBlobUnknown err); [|by intros [= <-]].
  assert (forall r0 : outcome cache (option error), P (cache_of r0) ->
            match r0 with
            | Returns (Some err0) c1 => Some (Returns (Some err0) c1)
            | Returns None c1 =>
              match godigest.Validate d with
              | Some err0 => Some (Returns (Some (InvalidDigest err0)) c1)
              | None =>
                match cache.ValidateDescriptor desc with
                | Some err0 => Some (Returns (Some err0) c1)
                | None =>
                  Some (Returns None (lru.Add {| digest := d; repo := "" |} desc c1))
                end
              end
            | Panics c1 => Some (Panics c1)
            end = Some r -> P (cache_of r)) as Hrest.
  { intros [[e0|] c1|c1] H1; simpl in H1; [by intros [= <-]| |by intros [= <-]].
    destruct (godigest.Validate d) eqn:Hd; [by intros [= <-]|].
    destruct (cache.ValidateDescriptor desc) eqn:Hdesc; [by intros [= <-]|].
    intros [= <-]. simpl. by apply (HAdd d). }
  destruct (imbdcp.differ d desc) as [[]|].
  - destruct (imbdcp.SetDescriptor_rec fuel (distribution.Digest desc) desc c0)
      as [r0|] eqn:Hr0; [|done].
    apply Hrest. by eapply IH.
  - by apply (Hrest (Returns None c0)).
  - by apply (Hrest (Panics c0)).
Qed.

Lemma wellFormed_Get k c : wellFormed c -> wellFormed (lru.Get k c).2.
Proof. intros Hc k' desc Hk. apply (Hc k'). by eapply Get_frame. Qed.

Lemma wellFormed_Remove k c : wellFormed c -> wellFormed (lru.Remove k c).
Proof.
  intros Hc k' desc. rewrite lru.Remove_contents. intros Hk.
  apply lookup_delete_Some in Hk as [_ Hk]. by apply (Hc k').
Qed.

Lemma wellFormed_Add k desc c :
  godigest.Validate (digest k) = None ->
  cache.ValidateDescriptor desc = None ->
  wellFormed c -> wellFormed (lru.Add k desc c).
Proof.
  intros Hk Hdesc Hc k' desc' Hk'.
  apply Add_frame in Hk' as [[-> ->]|[_ Hk']]; [done|]. by apply (Hc k').
Qed.

Lemma wellFormed_Stat d c : wellFormed c -> wellFormed (imbdcp.Stat d c).2.
Proof.
  intros Hc. destruct (Stat_cache d c) as [-> | ->]; [done|].
  by apply wellFormed_Get.
Qed.

Lemma wellFormed_scoped_Stat v d c :
  wellFormed c -> wellFormed (rsimbdcp.Stat v d c).2.
Proof.
  intros Hc. destruct (scoped_Stat_cache v d c) as [-> | ->]; [done|].
  by apply wellFormed_Get.
Qed.

Lemma wellFormed_SetDescriptor_rec fuel d desc c r :
  wellFormed c -> imbdcp.SetDescriptor_rec fuel d desc c = Some r ->
  wellFormed (cache_of r).
Proof.
  apply (SetDescriptor_rec_invariant wellFormed).
  - intros k c0. apply wellFormed_Get.
  - intros d0 desc0 c0 Hd Hdesc. by apply wellFormed_Add.
Qed.

Lemma wellFormed_scoped_SetDescriptor v d desc c r :
  wellFormed c -> rsimbdcp.SetDescriptor v d desc c = Some r ->
  wellFormed (cache_of r).
Proof.
  intros Hc. unfold rsimbdcp.SetDescriptor.
  destruct (godigest.Validate d) eqn:Hd; [by intros [= <-]|].
  destruct (cache.ValidateDescriptor desc) eqn:Hdesc; [by intros [= <-]|].
  apply wellFormed_SetDescriptor_rec. by apply wellFormed_Add.
Qed.

(** X1: every method keeps the cache well formed: when every entry has
    a key whose digest validates and a descriptor that passed
    [ValidateDescriptor], the same holds after [Stat], [Clear] and
    [SetDescriptor], of the provider and of every view, whatever they
    return. *)
Theorem wellFormed_preserved (v : repositoryScopedInMemoryBlobDescriptorCache)
    (d : godigest.Digest) (desc : Descriptor) (c : cache) :
  wellFormed c ->
  wellFormed (imbdcp.Stat d c).2
  /\ wellFormed (imbdcp.Clear d c).2
  /\ (forall r, imbdcp.SetDescriptor d desc c = Some r -> wellFormed (cache_of r))
  /\ wellFormed (rsimbdcp.Stat v d c).2
  /\ wellFormed (rsimbdcp.Clear v d c).2
  /\ (forall r, rsimbdcp.SetDescriptor v d desc c = Some r -> wellFormed (cache_of r)).
Proof.
  intros Hc.
  split; [by apply wellFormed_Stat|].
  split; [by apply (wellFormed_Remove _ c)|].
  split; [intros r; by apply wellFormed_SetDescriptor_rec|].
  split; [by apply wellFormed_scoped_Stat|].
  split; [by apply (wellFormed_Remove _ c)|].
  intros r. by apply wellFormed_scoped_SetDescriptor.
Qed.

End Invariants.

Section Reachability.
Context {cache : Type}.
Context `{!lru.ARCCache descriptorCacheKey Descriptor cache}.
Context `{!lru.Constructor descriptorCacheKey Descriptor cache}.
Context `{!godigest.Validation}.

Lemma New_contents size (c : cache) :
  imbdcp.NewInMemoryBlobDescriptorCacheProvider size = Some c ->
  lru.contents c = ∅.
Proof.
  unfold imbdcp.NewInMemoryBlobDescriptorCacheProvider.
  destruct (lru.NewARC _) as [c0|] eqn:Hc0; [|done].
  intros [= <-]. by eapply lru.NewARC_contents.
Qed.

Lemma New_total size :
  is_Some (imbdcp.NewInMemoryBlobDescriptorCacheProvider (cache:=cache) size).
Proof.
  unfold imbdcp.NewInMemoryBlobDescriptorCacheProvider.
  destruct (lru.NewARC (cache:=cache) (if Z.leb size 0 then MaxInt else size))
    as [c|] eqn:Hc; [by eauto|].
  apply lru.NewARC_size in Hc.
  destruct (Z.leb_spec size 0); unfold MaxInt in *; lia.
Qed.

Lemma reachable_wellFormed (c : cache) : reachable c -> wellFormed c.
Proof.
  induction 1 as [size c Hnew|d c _ IH|d c _ IH|d desc c r _ IH Hr
                  |v d c _ IH|v d c _ IH|v d desc c r _ IH Hr].
  - intros k desc. by rewrite (New_contents _ _ Hnew), lookup_empty.
  - by apply wellFormed_Stat.
  - by apply (wellFormed_Remove _ c).
  - by eapply wellFormed_SetDescriptor_rec.
  - by apply wellFormed_scoped_Stat.
  - by apply (wellFormed_Remove _ c).
  - by eapply wellFormed_scoped_SetDescriptor.
Qed.

(** X2: in a cache made by the constructor and any sequence of calls of
    the six methods, a [Stat] that succeeds, through the provider or
    through a view, gives a descriptor that [ValidateDescriptor] admits
    (so its own digest validates too). *)
Theorem Stat_gives_validated (v : repositoryScopedInMemoryBlobDescriptorCache)
    (d : godigest.Digest) (desc : Descriptor) (c : cache) :
  reachable c ->
  ((imbdcp.Stat d c).1 = (desc, None) \/ (rsimbdcp.Stat v d c).1 = (desc, None)) ->
  cache.ValidateDescriptor desc = None
  /\ godigest.Validate (distribution.Digest desc) = None.
Proof.
  intros Hc%reachable_wellFormed Hstat.
  assert (exists k, lru.contents c !! k = Some desc) as [k Hk].
  { destruct Hstat as [Hs|Hs].
    - destruct (godigest.Validate d) as [e|] eqn:Hd.
      + by rewrite (Stat_invalid _ _ _ Hd) in Hs.
      + rewrite (Stat_valid _ _ Hd) in Hs. simpl in Hs.
        destruct (lru.contents c !! globalKey d) as [x|] eqn:Hx; [|done].
        exists (globalKey d). congruence.
    - destruct (godigest.Validate d) as [e|] eqn:Hd.
      + by rewrite (scoped_Stat_invalid _ _ _ _ Hd) in Hs.
      + rewrite (scoped_Stat_valid _ _ _ Hd) in Hs. simpl in Hs.
        destruct (lru.contents c !! scopedKey v d) as [x|] eqn:Hx; [|done].
        exists (scopedKey v d). congruence. }
  destruct (Hc k desc Hk) as [_ Hdesc].
  split; [done|]. by apply ValidateDescriptor_Digest.
Qed.

(** X3: the constructor gives a provider for every size, and a new
    provider knows nothing: for a digest that validates, [Stat] through
    the provider and through every view reports [ErrBlobUnknown] with
    the zero descriptor. *)
Theorem new_provider_knows_nothing (size : Z)
    (v : repositoryScopedInMemoryBlobDescriptorCache) (d : godigest.Digest) :
  godigest.Validate d = None ->
  exists c : cache,
    imbdcp.NewInMemoryBlobDescriptorCacheProvider size = Some c
    /\ (imbdcp.Stat d c).1 = (distribution.zero, Some ErrBlobUnknown)
    /\ (rsimbdcp.Stat v d c).1 = (distribution.zero, Some ErrBlobUnknown).
Proof.
  intros Hd. destruct (New_total size) as [c Hc]. exists c.
  split; [done|].
  rewrite (Stat_valid _ _ Hd), (scoped_Stat_valid _ _ _ Hd).
  by rewrite (New_contents _ _ Hc), !lookup_empty.
Qed.

End Reachability.

Section MoreOperations.
Context {cache : Type}.
Context `{!lru.ARCCache descriptorCacheKey Descriptor cache}.
Context `{!godigest.Validation} `{!reference.Normalization}.


(** X5: the [SetDescriptor] of a view always returns (it never
    panics); it returns no error exactly when the digest validates and
    [ValidateDescriptor] admits the descriptor, and when it returns an
    error it has made no call to the cache. *)
Theorem scoped_SetDescriptor_returns (v : repositoryScopedInMemoryBlobDescriptorCache)
    (d : godigest.Digest) (desc : Descriptor) (c : cache) :
  exists err c',
    rsimbdcp.SetDescriptor v d desc c = Some (Returns err c')
    /\ (err = None <->
        godigest.Validate d = None /\ cache.ValidateDescriptor desc = None)
    /\ (err <> None -> c' = c).
Proof.
  destruct (godigest.Validate d) as [e|] eqn:Hd.
  { exists (Some (InvalidDigest e)), c.
    split; [by apply scoped_SetDescriptor_invalid|].
    split; [split; [done|by intros [? _]]|done]. }
  destruct (cache.ValidateDescriptor desc) as [e|] eqn:Hdesc.
  { exists (Some e), c. unfold rsimbdcp.SetDescriptor. rewrite Hd, Hdesc.
    split; [done|]. split; [split; [done|by intros [_ ?]]|done]. }
  eexists None, _. split; [by apply scoped_SetDescriptor_valid|].
  split; [done|]. by intros [].
Qed.

(** What [SetDescriptor] leaves is within what the cache held, unless
    it returns no error for a digest and a descriptor that validate. *)
Lemma SetDescriptor_rec_grows fuel d desc c r :
  imbdcp.SetDescriptor_rec fuel d desc c = Some r ->
  lru.contents (cache_of r) ⊆ lru.contents c
  \/ (exists c', r = Returns None c'
                 /\ godigest.Validate d = None
                 /\ cache.ValidateDescriptor desc = None).
Proof.
  revert d c r. induction fuel as [|fuel IH]; intros d c r; [done|].
  destruct (godigest.Validate d) as [e|] eqn:Hd.
  { rewrite (SetDescriptor_rec_invalid _ _ _ _ _ Hd). intros [= <-]. by left. }
  cbn [imbdcp.SetDescriptor_rec]. rewrite (Stat_valid _ _ Hd).
  pose proof (lru.Get_subseteq (globalKey d) c) as Hc0.
  destruct (lru.contents c !! globalKey d) as [x|]; cbn [isErrBlobUnknown].
  { intros [= <-]. by left. }
  rewrite Hd. destruct (imbdcp.differ d desc) as [[]|].
  - destruct (imbdcp.SetDescriptor_rec fuel (distribution.Digest desc) desc
                (lru.Get (globalKey d) c).2) as [r0|] eqn:Hr0; [|done].
    apply IH in Hr0.
    destruct r0 as [[e0|] c1|c1].
    + intros [= <-]. left. destruct Hr0 as [Hr0|(c' & [=] & _)]. by etrans.
    + destruct (cache.ValidateDescriptor desc) as [e1|] eqn:Hdesc.
      * intros [= <-]. left. destruct Hr0 as [Hr0|(c' & _ & _ & [=])]. by etrans.
      * intros [= <-]. right. eauto.
    + intros [= <-]. left. destruct Hr0 as [Hr0|(c' & [=] & _)]. by etrans.
  - destruct (cache.ValidateDescriptor desc) as [e1|] eqn:Hdesc.
    + intros [= <-]. by left.
    + intros [= <-]. right. eauto.
  - intros [= <-]. by left.
Qed.

(** X6: a [SetDescriptor] of the provider that does not return [nil]
    (it returns an error, or [Algorithm()] panics) has added nothing to
    the cache: every entry it leaves was there before, with the same
    descriptor.  In particular the canonical entry is never registered
    without the entry that was asked for. *)
Theorem SetDescriptor_failure_adds_nothing (fuel : nat) (d : godigest.Digest)
    (desc : Descriptor) (c : cache) (r : outcome cache (option error)) :
  imbdcp.SetDescriptor_rec fuel d desc c = Some r ->
  (forall c', r <> Returns None c') ->
  forall k x, lru.contents (cache_of r) !! k = Some x -> lru.contents c !! k = Some x.
Proof.
  intros Hr Hfail k x Hk.
  apply SetDescriptor_rec_grows in Hr as [Hsub|(c' & -> & _)].
  - by eapply lookup_weaken.
  - by destruct (Hfail c').
Qed.

(** X7: for a digest that validates, the provider's [SetDescriptor]
    returns [nil] exactly when the digest is already known or
    [ValidateDescriptor] admits the descriptor; a descriptor that does
    not validate is thus accepted, and ignored, for a known digest. *)
Theorem SetDescriptor_nil_iff (d : godigest.Digest) (desc : Descriptor) (c : cache) :
  godigest.Validate d = None ->
  (exists c', imbdcp.SetDescriptor d desc c = Some (Returns None c'))
  <-> (is_Some (lru.contents c !! globalKey d)
       \/ cache.ValidateDescriptor desc = None).
Proof.
  intros Hd. split.
  - intros [c' Hr].
    destruct (lru.contents c !! globalKey d) as [x|] eqn:Hx; [left; eauto|right].
    pose proof (SetDescriptor_rec_grows _ _ _ _ _ Hr) as [Hsub|(c'' & _ & _ & Hdesc)];
      [|done].
    simpl in Hsub.
    assert (is_Some (lru.contents c' !! globalKey d)) as [y Hy].
    { revert Hr. unfold imbdcp.SetDescriptor.
      change 2%nat with (S 1). remember 1%nat as m eqn:Hm.
      cbn [imbdcp.SetDescriptor_rec]. subst m.
      rewrite (Stat_valid _ _ Hd), Hx. cbn [isErrBlobUnknown]. rewrite Hd.
      destruct (match imbdcp.differ d desc with
                | Some true => _ | Some false => _ | None => _ end)
        as [[[e0|] c1|c1]|]; try done.
      destruct (cache.ValidateDescriptor desc); [done|].
      intros [= <-]. rewrite lru.Add_same. eauto. }
    apply (lookup_weaken _ _ _ _ Hy) in Hsub. congruence.
  - intros [[x Hx]|Hdesc].
    + eexists. by apply (SetDescriptor_rec_known 1 d x).
    + eexists. by apply SetDescriptor_valid.
Qed.

End MoreOperations.

Section Frames.
Context {cache : Type}.
Context `{!lru.ARCCache descriptorCacheKey Descriptor cache}.
Context `{!godigest.Validation}.

(** An entry under a key that is not global and that [SetDescriptor]
    leaves was there before. *)
Lemma SetDescriptor_rec_frame fuel d desc c r k x :
  repo k <> "" ->
  imbdcp.SetDescriptor_rec fuel d desc c = Some r ->
  lru.contents (cache_of r) !! k = Some x -> lru.contents c !! k = Some x.
Proof.
  intros Hk Hr.
  apply (SetDescriptor_rec_invariant
           (fun c' => lru.contents c' !! k = Some x -> lru.contents c !! k = Some x))
    with (r := r) (fuel := fuel) (d := d) (desc := desc) (c := c); [| |done|done].
  - intros k0 c0 Hc0 Hx. apply Hc0. by eapply Get_frame.
  - intros d0 desc0 c0 _ _ Hc0 Hx.
    apply Add_frame in Hx as [[-> _]|[_ Hx]]; [done|by apply Hc0].
Qed.

(** X8: the methods of the provider never make or change an entry of a
    repository: an entry under a key with a repository name that is
    there after [Stat], [Clear] or [SetDescriptor] of the provider was
    there before, with the same descriptor, and [Clear] keeps every
    such entry. *)
Theorem provider_leaves_repositories (d : godigest.Digest) (desc : Descriptor)
    (c : cache) (k : descriptorCacheKey) :
  repo k <> "" ->
  (forall x, lru.contents (imbdcp.Stat d c).2 !! k = Some x ->
             lru.contents c !! k = Some x)
  /\ lru.contents (imbdcp.Clear d c).2 !! k = lru.contents c !! k
  /\ (forall fuel r x,
        imbdcp.SetDescriptor_rec fuel d desc c = Some r ->
        lru.contents (cache_of r) !! k = Some x -> lru.contents c !! k = Some x).
Proof.
  intros Hk. split; [|split].
  - intros x. destruct (Stat_cache d c) as [-> | ->]; [done|apply Get_frame].
  - unfold imbdcp.Clear. simpl. rewrite lru.Remove_contents.
    apply lookup_delete_ne. intros <-. by apply Hk.
  - intros fuel r x. by apply SetDescriptor_rec_frame.
Qed.

(** X9: the methods of a view never make or change an entry of another
    repository: an entry under a key with another repository name that
    is there after [Stat], [Clear] or [SetDescriptor] of the view was
    there before, with the same descriptor, and [Clear] keeps every
    such entry. *)
Theorem view_leaves_other_repositories
    (v : repositoryScopedInMemoryBlobDescriptorCache)
    (d : godigest.Digest) (desc : Descriptor) (c : cache) (k : descriptorCacheKey) :
  repo k <> "" ->
  repo k <> view_repo v ->
  (forall x, lru.contents (rsimbdcp.Stat v d c).2 !! k = Some x ->
             lru.contents c !! k = Some x)
  /\ lru.contents (rsimbdcp.Clear v d c).2 !! k = lru.contents c !! k
  /\ (forall r x,
        rsimbdcp.SetDescriptor v d desc c = Some r ->
        lru.contents (cache_of r) !! k = Some x -> lru.contents c !! k = Some x).
Proof.
  intros Hk Hv. split; [|split].
  - intros x. destruct (scoped_Stat_cache v d c) as [-> | ->]; [done|apply Get_frame].
  - unfold rsimbdcp.Clear. simpl. rewrite lru.Remove_contents.
    apply lookup_delete_ne. intros <-. by apply Hv.
  - intros r x. unfold rsimbdcp.SetDescriptor.
    destruct (godigest.Validate d); [by intros [= <-]|].
    destruct (cache.ValidateDescriptor desc); [by intros [= <-]|].
    intros Hr Hx. apply (SetDescriptor_rec_frame _ _ _ _ _ _ _ Hk Hr) in Hx.
    apply Add_frame in Hx as [[-> _]|[_ Hx]]; [|done].
    by destruct Hv.
Qed.

End Frames.

Lemma wellFormed_preserved_witness :
  wellFormed (<[globalKey a256 := layer a256 1]> ∅ : store)
  /\ wellFormed (imbdcp.Clear b256 (<[globalKey a256 := layer a256 1]> ∅ : store)).2.
Proof.
  assert (wellFormed (<[globalKey a256 := layer a256 1]> ∅ : store)) as Hc.
  { intros k desc Hk. cbn [lru.contents MapCache.arc] in Hk.
    apply lookup_insert_Some in Hk as [[<- <-]|[_ Hk]].
    - split; vm_compute; reflexivity.
    - by rewrite lookup_empty in Hk. }
  split; [exact Hc|].
  apply (wellFormed_preserved (cache:=store) ubuntu b256 (layer b256 1) _ Hc).
Defined.

Lemma Stat_gives_validated_witness :
  exists c : bounded,
    reachable c
    /\ (imbdcp.Stat a256 c).1 = (layer a256 1, None)
    /\ cache.ValidateDescriptor (layer a256 1) = None
    /\ godigest.Validate (distribution.Digest (layer a256 1)) = None.
Proof.
  exists {| BoundedCache.cap := 1;
            BoundedCache.items := [(globalKey a256, layer a256 1)] |}.
  assert (reachable
            ({| BoundedCache.cap := 1;
                BoundedCache.items := [(globalKey a256, layer a256 1)] |} : bounded))
    as Hc.
  { apply (reachable_SetDescriptor a256 (layer a256 1)
             {| BoundedCache.cap := 1; BoundedCache.items := [] |}
             (Returns None _)).
    - apply (reachable_New 1). vm_compute; reflexivity.
    - vm_compute; reflexivity. }
  assert ((imbdcp.Stat a256
             ({| BoundedCache.cap := 1;
                 BoundedCache.items := [(globalKey a256, layer a256 1)] |} : bounded)).1
          = (layer a256 1, None)) as Hs by (vm_compute; reflexivity).
  split; [exact Hc|]. split; [exact Hs|].
  apply (Stat_gives_validated (cache:=bounded) ubuntu a256 (layer a256 1) _ Hc).
  left. exact Hs.
Defined.

Lemma new_provider_knows_nothing_witness :
  godigest.Validate a256 = None
  /\ exists c : bounded,
       imbdcp.NewInMemoryBlobDescriptorCacheProvider 0 = Some c
       /\ (imbdcp.Stat a256 c).1 = (distribution.zero, Some ErrBlobUnknown)
       /\ (rsimbdcp.Stat ubuntu a256 c).1 = (distribution.zero, Some ErrBlobUnknown).
Proof.
  split; [vm_compute; reflexivity|].
  apply (new_provider_knows_nothing (cache:=bounded) 0 ubuntu a256).
  vm_compute; reflexivity.
Defined.


Lemma SetDescriptor_failure_adds_nothing_witness :
  imbdcp.SetDescriptor_rec 2 a256 (layer a256 (-1)) (∅ : store)
  = Some (Returns (Some (InvalidDescriptor "invalid size in descriptor")) ∅)
  /\ forall k x, (∅ : store) !! k = Some x -> (∅ : store) !! k = Some x.
Proof.
  assert (imbdcp.SetDescriptor_rec 2 a256 (layer a256 (-1)) (∅ : store)
          = Some (Returns (Some (InvalidDescriptor "invalid size in descriptor")) ∅))
    as Hr by (vm_compute; reflexivity).
  split; [exact Hr|].
  apply (SetDescriptor_failure_adds_nothing (cache:=store) 2 a256
           (layer a256 (-1)) ∅ _ Hr).
  discriminate.
Defined.

Lemma SetDescriptor_nil_iff_witness :
  godigest.Validate a256 = None
  /\ ((exists c' : store,
         imbdcp.SetDescriptor a256 (layer a256 (-1)) ∅ = Some (Returns None c'))
      <-> (is_Some (lru.contents (∅ : store) !! globalKey a256)
           \/ cache.ValidateDescriptor (layer a256 (-1)) = None)).
Proof.
  split; [vm_compute; reflexivity|].
  apply (SetDescriptor_nil_iff (cache:=store) a256 (layer a256 (-1)) ∅).
  vm_compute; reflexivity.
Defined.

Lemma provider_leaves_repositories_witness :
  repo {| digest := a256; repo := "library/ubuntu" |} <> ""
  /\ lru.contents (imbdcp.Clear a256 (∅ : store)).2
       !! {| digest := a256; repo := "library/ubuntu" |}
     = (∅ : store) !! {| digest := a256; repo := "library/ubuntu" |}.
Proof.
  split; [discriminate|].
  destruct (provider_leaves_repositories (cache:=store) a256 (layer a256 1) ∅
              {| digest := a256; repo := "library/ubuntu" |}) as (_ & Hc & _);
    [discriminate|exact Hc].
Defined.

Lemma view_leaves_other_repositories_witness :
  repo {| digest := a256; repo := "library/alpine" |} <> ""
  /\ repo {| digest := a256; repo := "library/alpine" |} <> view_repo ubuntu
  /\ lru.contents (rsimbdcp.Clear ubuntu a256 (∅ : store)).2
       !! {| digest := a256; repo := "library/alpine" |}
     = (∅ : store) !! {| digest := a256; repo := "library/alpine" |}.
Proof.
  split; [discriminate|]. split; [discriminate|].
  destruct (view_leaves_other_repositories (cache:=store) ubuntu a256
              (layer a256 1) ∅ {| digest := a256; repo := "library/alpine" |})
    as (_ & Hc & _); [discriminate..|exact Hc].
Defined.

Section NoFallback.
Context {cache : Type}.
Context `{!lru.ARCCache descriptorCacheKey Descriptor cache}.
Context `{!godigest.Validation} `{!reference.Normalization}.

(** X10: a view does not fall back on the global entries: when a view
    has no entry for a digest, it has none after a [SetDescriptor] of
    the provider for that digest, whatever that call returns; its
    [Stat] reports [ErrBlobUnknown]. *)
Theorem view_has_no_global_fallback (R : string)
    (v : repositoryScopedInMemoryBlobDescriptorCache)
    (d : godigest.Digest) (desc : Descriptor) (c : cache)
    (r : outcome cache (option error)) :
  imbdcp.RepositoryScoped R = inl v ->
  godigest.Validate d = None ->
  (rsimbdcp.Stat v d c).1 = (distribution.zero, Some ErrBlobUnknown) ->
  imbdcp.SetDescriptor d desc c = Some r ->
  (rsimbdcp.Stat v d (cache_of r)).1 = (distribution.zero, Some ErrBlobUnknown).
Proof.
  intros Hv Hd Hmiss Hr. apply RepositoryScoped_repo in Hv as [Hrepo Hne].
  rewrite (scoped_Stat_valid _ _ _ Hd) in Hmiss. simpl in Hmiss.
  rewrite (scoped_Stat_valid _ _ _ Hd). simpl.
  destruct (lru.contents c !! scopedKey v d) as [x|] eqn:Hx; [discriminate|].
  destruct (lru.contents (cache_of r) !! scopedKey v d) as [y|] eqn:Hy; [|done].
  eapply SetDescriptor_rec_frame in Hy; [|simpl; congruence|exact Hr].
  congruence.
Qed.

End NoFallback.

Lemma view_has_no_global_fallback_witness :
  imbdcp.RepositoryScoped "library/ubuntu" = inl ubuntu
  /\ godigest.Validate a256 = None
  /\ (rsimbdcp.Stat ubuntu a256
        ({| BoundedCache.cap := 8;
            BoundedCache.items := [(globalKey a256, layer a256 1)] |} : bounded)).1
     = (distribution.zero, Some ErrBlobUnknown).
Proof.
  split; [vm_compute; reflexivity|].
  split; [vm_compute; reflexivity|].
  apply (view_has_no_global_fallback (cache:=bounded) "library/ubuntu" ubuntu a256
           (layer a256 1) {| BoundedCache.cap := 8; BoundedCache.items := [] |}
           (Returns None
              {| BoundedCache.cap := 8;
                 BoundedCache.items := [(globalKey a256, layer a256 1)] |})).
  - vm_compute; reflexivity.
  - vm_compute; reflexivity.
  - vm_compute; reflexivity.
  - vm_compute; reflexivity.
Defined.

(** * The cipher suites of the registry *)
Section CipherSuites.
Local Open Scope list_scope.
Local Open Scope nat_scope.

Lemma getCipherSuites_range_ok names : forall pre rest ids,
  Forall2 (fun name id => registry.cipherSuites !! name = Some id) names ids ->
  length names <= length rest ->
  registry.getCipherSuites_range (length pre) names (pre ++ rest)
  = inl (pre ++ ids ++ drop (length names) rest).
Proof.
  induction names as [|name names IH]; intros pre rest ids Hids Hlen.
  - apply Forall2_nil_inv_l in Hids as ->. by rewrite drop_0.
  - apply Forall2_cons_inv_l in Hids as (id & ids' & Hid & Hids & ->).
    destruct rest as [|z rest]; simpl in Hlen; [lia|].
    cbn [registry.getCipherSuites_range]. rewrite Hid.
    replace (<[length pre := id]> (pre ++ z :: rest))
      with ((pre ++ [id]) ++ rest).
    2:{ rewrite <- (Nat.add_0_r (length pre)), insert_app_r. simpl.
        by rewrite <- app_assoc. }
    replace (S (length pre)) with (length (pre ++ [id]))
      by (rewrite length_app; simpl; lia).
    rewrite (IH (pre ++ [id]) rest ids' Hids) by lia.
    by rewrite <- app_assoc.
Qed.

Lemma getCipherSuites_range_unknown known : forall i bad more acc,
  Forall (fun name => is_Some (registry.cipherSuites !! name)) known ->
  registry.cipherSuites !! bad = None ->
  registry.getCipherSuites_range i (known ++ bad :: more) acc
  = inr ("unknown TLS cipher suite '" ++ bad
         ++ "' specified for http.tls.cipherSuites")%string.
Proof.
  induction known as [|name known IH]; intros i bad more acc Hknown Hbad;
    cbn [app registry.getCipherSuites_range].
  - rewrite Hbad. reflexivity.
  - apply Forall_cons in Hknown as [[id Hid] Hknown]. rewrite Hid. by apply IH.
Qed.

Lemma names_known_or_not (names : list string) :
  (exists ids, Forall2 (fun name id => registry.cipherSuites !! name = Some id) names ids)
  \/ (exists known bad more,
        names = (known ++ bad :: more)%list
        /\ Forall (fun name => is_Some (registry.cipherSuites !! name)) known
        /\ registry.cipherSuites !! bad = None).
Proof.
  induction names as [|name names IH].
  - left. exists []. constructor.
  - destruct (registry.cipherSuites !! name) as [id|] eqn:Hid.
    + destruct IH as [[ids Hids]|(known & bad & more & -> & Hknown & Hbad)].
      * left. exists (id :: ids). by constructor.
      * right. exists (name :: known), bad, more.
        split; [done|]. split; [|done]. constructor; [by eauto|done].
    + right. exists [], name, names. by repeat split.
Qed.

Lemma getCipherSuites_known names ids :
  names <> [] ->
  Forall2 (fun name id => registry.cipherSuites !! name = Some id) names ids ->
  registry.getCipherSuites names = inl ids.
Proof.
  intros Hne HF. destruct names as [|name names]; [done|].
  unfold registry.getCipherSuites. cbn [length Nat.eqb].
  pose proof (getCipherSuites_range_ok (name :: names) []
                (replicate (S (length names)) 0%Z) ids HF) as Hok.
  rewrite length_replicate in Hok. specialize (Hok (le_n _)).
  rewrite drop_replicate, Nat.sub_diag, app_nil_r in Hok. exact Hok.
Qed.

Lemma getCipherSuites_unknown known bad more :
  Forall (fun name => is_Some (registry.cipherSuites !! name)) known ->
  registry.cipherSuites !! bad = None ->
  registry.getCipherSuites (known ++ bad :: more)
  = inr ("unknown TLS cipher suite '" ++ bad
         ++ "' specified for http.tls.cipherSuites")%string.
Proof.
  intros Hknown Hbad. unfold registry.getCipherSuites.
  destruct (known ++ bad :: more) as [|name names] eqn:Hn; [by destruct known|].
  cbn [length Nat.eqb]. rewrite <- Hn. by apply getCipherSuites_range_unknown.
Qed.


(** X11: [getCipherSuites] gives the default suites for the empty
    list; for another list it succeeds exactly with the list, of the
    same length and in the same order, of the constants that
    [cipherSuites] has for the names. *)
Theorem getCipherSuites_inl (names : list string) (ids : list Z) :
  registry.getCipherSuites names = inl ids
  <-> (names = [] /\ ids = registry.defaultCipherSuites)
      \/ (names <> []
          /\ Forall2 (fun name id => registry.cipherSuites !! name = Some id)
               names ids).
Proof.
  split.
  - destruct names as [|name names]; [intros [= <-]; by left|].
    intros Hr. right. split; [done|].
    destruct (names_known_or_not (name :: names))
      as [[ids' Hids']|(known & bad & more & Hn & Hknown & Hbad)].
    + rewrite (getCipherSuites_known _ ids') in Hr by done. congruence.
    + rewrite Hn, (getCipherSuites_unknown _ _ _ Hknown Hbad) in Hr.
      discriminate Hr.
  - intros [[-> ->]|[Hne HF]]; [done|by apply getCipherSuites_known].
Qed.

(** X12: [getCipherSuites] fails exactly when a name is not in
    [cipherSuites], and the error is about the first such name. *)
Theorem getCipherSuites_inr (names : list string) (err : string) :
  registry.getCipherSuites names = inr err
  <-> exists known bad more,
        names = known ++ bad :: more
        /\ Forall (fun name => is_Some (registry.cipherSuites !! name)) known
        /\ registry.cipherSuites !! bad = None
        /\ err = ("unknown TLS cipher suite '" ++ bad
                  ++ "' specified for http.tls.cipherSuites")%string.
Proof.
  split.
  - destruct names as [|name names]; [done|]. intros Hr.
    destruct (names_known_or_not (name :: names))
      as [[ids Hids]|(known & bad & more & Hn & Hknown & Hbad)].
    + rewrite (getCipherSuites_known _ ids) in Hr by done. discriminate Hr.
    + exists known, bad, more.
      split; [exact Hn|]. split; [exact Hknown|]. split; [exact Hbad|].
      rewrite Hn, (getCipherSuites_unknown _ _ _ Hknown Hbad) in Hr. congruence.
  - intros (known & bad & more & -> & Hknown & Hbad & ->).
    by apply getCipherSuites_unknown.
Qed.

Lemma getCipherSuiteNames_range_spec CipherSuiteName ids : forall pre rest,
  length ids <= length rest ->
  registry.getCipherSuiteNames_range CipherSuiteName (length pre) ids (pre ++ rest)
  = (pre ++ map CipherSuiteName ids ++ drop (length ids) rest)%list.
Proof.
  induction ids as [|id ids IH]; intros pre rest Hlen.
  - by rewrite drop_0.
  - destruct rest as [|z rest]; simpl in Hlen; [lia|].
    cbn [registry.getCipherSuiteNames_range].
    replace (<[length pre := CipherSuiteName id]> (pre ++ z :: rest))
      with ((pre ++ [CipherSuiteName id]) ++ rest).
    2:{ rewrite <- (Nat.add_0_r (length pre)), insert_app_r. simpl.
        by rewrite <- app_assoc. }
    replace (S (length pre)) with (length (pre ++ [CipherSuiteName id]))
      by (rewrite length_app; simpl; lia).
    rewrite (IH (pre ++ [CipherSuiteName id]) rest) by lia.
    by rewrite <- app_assoc.
Qed.

(** X13: [getCipherSuiteNames] gives the name of every constant, in
    order; when [tls.CipherSuiteName] gives, for the constants of
    [cipherSuites], the names under which they stand there, the names
    of the suites that [getCipherSuites] made of a list of names that
    is not empty are that list. *)
Theorem getCipherSuiteNames_round_trip (CipherSuiteName : Z -> string)
    (names : list string) (ids : list Z) :
  (forall name id, registry.cipherSuites !! name = Some id ->
                   CipherSuiteName id = name) ->
  names <> [] ->
  registry.getCipherSuites names = inl ids ->
  registry.getCipherSuiteNames CipherSuiteName ids = map CipherSuiteName ids
  /\ registry.getCipherSuiteNames CipherSuiteName ids = names.
Proof.
  intros Hname Hne Hids.
  assert (Forall2 (fun name id => registry.cipherSuites !! name = Some id) names ids)
    as HF.
  { destruct (names_known_or_not names)
      as [[ids' Hids']|(known & bad & more & Hn & Hknown & Hbad)].
    - rewrite (getCipherSuites_known _ ids') in Hids by done. congruence.
    - rewrite Hn, (getCipherSuites_unknown _ _ _ Hknown Hbad) in Hids.
      discriminate Hids. }
  assert (registry.getCipherSuiteNames CipherSuiteName ids = map CipherSuiteName ids)
    as Hmap.
  { unfold registry.getCipherSuiteNames. destruct ids as [|id ids]; [done|].
    cbn [length Nat.eqb].
    pose proof (getCipherSuiteNames_range_spec CipherSuiteName (id :: ids) []
                  (replicate (S (length ids)) ""%string)) as Hspec.
    rewrite length_replicate in Hspec. specialize (Hspec (le_n _)).
    rewrite drop_replicate, Nat.sub_diag, app_nil_r in Hspec. exact Hspec. }
  split; [done|]. rewrite Hmap.
  clear -HF Hname. induction HF as [|name id names ids Hid _ IH]; [done|].
  simpl. by rewrite (Hname _ _ Hid), IH.
Qed.

End CipherSuites.

(** * The start of the registry *)
Section ListenAndServe.
Context {Listener Certificate : Type}.
Variable NewListener : string -> string -> Listener + string.
Variable LoadX509KeyPair : string -> string -> Certificate + string.
Variable ReadFile : string -> string + string.
Variable hasCertificate : string -> bool.
Local Open Scope list_scope.

Local Abbreviation ListenAndServe :=
  (registry.ListenAndServe Listener Certificate NewListener LoadX509KeyPair
     ReadFile hasCertificate).
Local Abbreviation readClientCAs := (registry.readClientCAs ReadFile hasCertificate).

Lemma readClientCAs_inl cas : forall pool0 pool,
  readClientCAs cas pool0 = inl pool ->
  exists pems,
    pool = pool0 ++ pems
    /\ Forall2 (fun ca pem => ReadFile ca = inl pem /\ hasCertificate pem = true)
         cas pems.
Proof.
  induction cas as [|ca cas IH]; intros pool0 pool; simpl.
  - intros [= <-]. exists []. by rewrite app_nil_r.
  - destruct (ReadFile ca) as [pem|err] eqn:Hread; [|done].
    destruct (hasCertificate pem) eqn:Hpem; [|done].
    intros (pems & -> & HF)%IH. exists (pem :: pems).
    split; [by rewrite <- app_assoc|]. by constructor.
Qed.

(** What holds when the server is started on a TLS listener. *)
Lemma ListenAndServe_secure config config' st ln conf :
  ListenAndServe config = (config', inl st) ->
  registry.listenerOf st = registry.Secure ln conf ->
  NewListener (configuration.HTTP_Net config) (configuration.HTTP_Addr config) = inl ln
  /\ (configuration.HTTP_TLS_Certificate config <> ""
      \/ configuration.HTTP_TLS_LetsEncrypt_CacheFile config <> "")
  /\ config' = (if String.eqb (configuration.HTTP_TLS_MinimumTLS config) ""
                then configuration.set_HTTP_TLS_MinimumTLS
                       registry.defaultTLSVersionStr config
                else config)
  /\ registry.tlsVersions !! configuration.HTTP_TLS_MinimumTLS config'
     = Some (registry.MinVersion conf)
  /\ (if Z.ltb tls.VersionTLS12 (registry.MinVersion conf)
      then registry.CipherSuites conf = []
      else registry.getCipherSuites (configuration.HTTP_TLS_CipherSuites config)
           = inl (registry.CipherSuites conf))
  /\ ((configuration.HTTP_TLS_LetsEncrypt_CacheFile config <> ""
       /\ configuration.HTTP_TLS_Certificate config = ""
       /\ registry.GetCertificate conf
          = Some {| registry.HostPolicy :=
                      configuration.HTTP_TLS_LetsEncrypt_Hosts config;
                    registry.Cache :=
                      configuration.HTTP_TLS_LetsEncrypt_CacheFile config;
                    registry.Email :=
                      configuration.HTTP_TLS_LetsEncrypt_Email config;
                    registry.Client :=
                      registry.setDirectoryURL
                        (configuration.HTTP_TLS_LetsEncrypt_DirectoryURL config) |}
       /\ registry.Certificates conf = []
       /\ registry.NextProtos conf
          = registry.nextProtos config ++ [registry.ALPNProto])
      \/ (configuration.HTTP_TLS_LetsEncrypt_CacheFile config = ""
          /\ configuration.HTTP_TLS_Certificate config <> ""
          /\ registry.GetCertificate conf = None
          /\ (exists certificate,
                LoadX509KeyPair (configuration.HTTP_TLS_Certificate config)
                  (configuration.HTTP_TLS_Key config) = inl certificate
                /\ registry.Certificates conf = [certificate])
          /\ registry.NextProtos conf = registry.nextProtos config))
  /\ ((configuration.HTTP_TLS_ClientCAs config = []
       /\ registry.ClientAuth conf = tls.NoClientCert
       /\ registry.ClientCAs conf = None)
      \/ (configuration.HTTP_TLS_ClientCAs config <> []
          /\ registry.ClientAuth conf = tls.RequireAndVerifyClientCert
          /\ exists pool,
               readClientCAs (configuration.HTTP_TLS_ClientCAs config) [] = inl pool
               /\ registry.ClientCAs conf = Some pool)).
Proof.
  unfold registry.ListenAndServe.
  destruct (NewListener _ _) as [ln0|err]; [|by intros [=]].
  set (config1 := if String.eqb (configuration.HTTP_TLS_MinimumTLS config) ""
                  then configuration.set_HTTP_TLS_MinimumTLS
                         registry.defaultTLSVersionStr config
                  else config).
  assert (configuration.HTTP_TLS_Certificate config1
          = configuration.HTTP_TLS_Certificate config
          /\ configuration.HTTP_TLS_Key config1 = configuration.HTTP_TLS_Key config
          /\ configuration.HTTP_TLS_LetsEncrypt_CacheFile config1
             = configuration.HTTP_TLS_LetsEncrypt_CacheFile config
          /\ configuration.HTTP_TLS_CipherSuites config1
             = configuration.HTTP_TLS_CipherSuites config
          /\ configuration.HTTP_TLS_ClientCAs config1
             = configuration.HTTP_TLS_ClientCAs config
          /\ configuration.HTTP_DrainTimeout config1
             = configuration.HTTP_DrainTimeout config
          /\ configuration.HTTP_TLS_LetsEncrypt_Hosts config1
             = configuration.HTTP_TLS_LetsEncrypt_Hosts config
          /\ configuration.HTTP_TLS_LetsEncrypt_Email config1
             = configuration.HTTP_TLS_LetsEncrypt_Email config
          /\ configuration.HTTP_TLS_LetsEncrypt_DirectoryURL config1
             = configuration.HTTP_TLS_LetsEncrypt_DirectoryURL config
          /\ registry.nextProtos config1 = registry.nextProtos config)
    as (Hcert & Hkey & Hcache & Hsuites & Hcas & Hdrain & Hhosts & Hmail & Hurl & Hprotos).
  { unfold config1.
    by destruct (String.eqb (configuration.HTTP_TLS_MinimumTLS config) ""). }
  rewrite Hcert, Hkey, Hcache, Hsuites, Hcas, Hdrain, Hhosts, Hmail, Hurl, Hprotos.
  destruct (String.eqb_spec (configuration.HTTP_TLS_Certificate config) "")
    as [Hc|Hc];
    destruct (String.eqb_spec (configuration.HTTP_TLS_LetsEncrypt_CacheFile config) "")
      as [Hl|Hl]; cbn [negb orb].
  1:{ destruct (Z.eqb _ 0); intros [= _ <-]; simpl; done. }
  all: destruct (registry.tlsVersions !! configuration.HTTP_TLS_MinimumTLS config1)
         as [tlsMinVersion|] eqn:Hmin; [|by intros [=]].
  all: destruct (if Z.ltb tls.VersionTLS12 tlsMinVersion then _ else _)
         as [tlsCipherSuites|err] eqn:Hcs; [|by intros [=]].
  all: assert (if Z.ltb tls.VersionTLS12 tlsMinVersion
               then tlsCipherSuites = []
               else registry.getCipherSuites
                      (configuration.HTTP_TLS_CipherSuites config)
                    = inl tlsCipherSuites) as Hcs'
         by (destruct (Z.ltb tls.VersionTLS12 tlsMinVersion); congruence).
  all: clear Hcs.
  all: cbn [negb].
  - (* Let's Encrypt *)
    destruct (configuration.HTTP_TLS_ClientCAs config) as [|ca cas] eqn:Hca;
      cbn [length Nat.eqb negb].
    + destruct (Z.eqb (configuration.HTTP_DrainTimeout config) 0);
        intros [= <- <-]; cbn [registry.listenerOf]; intros [= <- <-];
        cbn [registry.ClientAuth registry.NextProtos registry.MinVersion
             registry.CipherSuites registry.GetCertificate registry.Certificates
             registry.ClientCAs];
        (split; [done|]); (split; [by right|]); (split; [done|]);
        (split; [done|]); (split; [done|]); (split; [by left|by left]).
    + destruct (readClientCAs (ca :: cas) []) as [pool|err] eqn:Hpool;
        [|by intros [=]].
      destruct (Z.eqb (configuration.HTTP_DrainTimeout config) 0);
        intros [= <- <-]; cbn [registry.listenerOf]; intros [= <- <-];
        cbn [registry.ClientAuth registry.NextProtos registry.MinVersion
             registry.CipherSuites registry.GetCertificate registry.Certificates
             registry.ClientCAs];
        (split; [done|]); (split; [by right|]); (split; [done|]);
        (split; [done|]); (split; [done|]); (split; [by left|right; eauto]).
  - (* a certificate and its key *)
    destruct (LoadX509KeyPair _ _) as [certificate|err] eqn:Hload;
      [|by intros [=]].
    destruct (configuration.HTTP_TLS_ClientCAs config) as [|ca cas] eqn:Hca;
      cbn [length Nat.eqb negb].
    + destruct (Z.eqb (configuration.HTTP_DrainTimeout config) 0);
        intros [= <- <-]; cbn [registry.listenerOf]; intros [= <- <-];
        cbn [registry.ClientAuth registry.NextProtos registry.MinVersion
             registry.CipherSuites registry.GetCertificate registry.Certificates
             registry.ClientCAs];
        (split; [done|]); (split; [by left|]); (split; [done|]);
        (split; [done|]); (split; [done|]);
        (split; [right; eauto 10|by left]).
    + destruct (readClientCAs (ca :: cas) []) as [pool|err] eqn:Hpool;
        [|by intros [=]].
      destruct (Z.eqb (configuration.HTTP_DrainTimeout config) 0);
        intros [= <- <-]; cbn [registry.listenerOf]; intros [= <- <-];
        cbn [registry.ClientAuth registry.NextProtos registry.MinVersion
             registry.CipherSuites registry.GetCertificate registry.Certificates
             registry.ClientCAs];
        (split; [done|]); (split; [by left|]); (split; [done|]);
        (split; [done|]); (split; [done|]);
        (split; [right; eauto 10|right; eauto]).
  - (* both: the error *)
    by intros [=].
Qed.

Lemma tlsVersions_Some name v :
  registry.tlsVersions !! name = Some v ->
  (name = "tls1.2"%string /\ v = tls.VersionTLS12)
  \/ (name = "tls1.3"%string /\ v = tls.VersionTLS13).
Proof.
  intros Hv. apply elem_of_list_to_map_2 in Hv.
  apply elem_of_cons in Hv as [[= -> ->]|Hv]; [by left|].
  apply elem_of_cons in Hv as [[= -> ->]|Hv]; [by right|].
  by apply elem_of_nil in Hv.
Qed.

(** X14: a TLS listener is never given a minimum version below TLS
    1.2: it is TLS 1.2 or TLS 1.3, the one that [tlsVersions] has for
    [MinimumTLS]; when [MinimumTLS] is empty it is TLS 1.2, and the
    method leaves ["tls1.2"] in the configuration; otherwise the
    configuration is left as it was. *)
Theorem ListenAndServe_minimum_version config config' st ln conf :
  ListenAndServe config = (config', inl st) ->
  registry.listenerOf st = registry.Secure ln conf ->
  (registry.MinVersion conf = tls.VersionTLS12
   \/ registry.MinVersion conf = tls.VersionTLS13)
  /\ (configuration.HTTP_TLS_MinimumTLS config = ""%string ->
      registry.MinVersion conf = tls.VersionTLS12
      /\ configuration.HTTP_TLS_MinimumTLS config' = "tls1.2"%string)
  /\ (configuration.HTTP_TLS_MinimumTLS config <> ""%string ->
      config' = config
      /\ registry.tlsVersions !! configuration.HTTP_TLS_MinimumTLS config
         = Some (registry.MinVersion conf)).
Proof.
  intros Hst Hln.
  destruct (ListenAndServe_secure _ _ _ _ _ Hst Hln)
    as (_ & _ & Hconfig & Hmin & _).
  split; [|split].
  - apply tlsVersions_Some in Hmin as [[_ ->]|[_ ->]]; auto.
  - intros Hempty. rewrite Hempty in Hconfig. simpl in Hconfig. subst config'.
    simpl in Hmin. split; [|done].
    apply tlsVersions_Some in Hmin as [[_ ->]|[[=] _]]. done.
  - intros Hne. apply String.eqb_neq in Hne. rewrite Hne in Hconfig.
    subst config'. done.
Qed.


(** X16: a TLS listener asks for a client certificate exactly when the
    configuration names client CAs: without them [ClientAuth] is
    [NoClientCert] and there is no pool; with them it is
    [RequireAndVerifyClientCert], and the pool holds what was read from
    every one of the files, in their order, each with a certificate in
    it. *)
Theorem ListenAndServe_client_auth config config' st ln conf :
  ListenAndServe config = (config', inl st) ->
  registry.listenerOf st = registry.Secure ln conf ->
  (configuration.HTTP_TLS_ClientCAs config = [] ->
   registry.ClientAuth conf = tls.NoClientCert /\ registry.ClientCAs conf = None)
  /\ (configuration.HTTP_TLS_ClientCAs config <> [] ->
      registry.ClientAuth conf = tls.RequireAndVerifyClientCert
      /\ exists pems,
           registry.ClientCAs conf = Some pems
           /\ Forall2
                (fun ca pem => ReadFile ca = inl pem /\ hasCertificate pem = true)
                (configuration.HTTP_TLS_ClientCAs config) pems).
Proof.
  intros Hst Hln.
  destruct (ListenAndServe_secure _ _ _ _ _ Hst Hln)
    as (_ & _ & _ & _ & _ & _ & [(Hnil & Hauth & Hpool)|(Hcas & Hauth & pool & Hread & Hpool)]).
  - split; [done|]. by intros [].
  - split; [by intros ?|]. intros _. split; [done|].
    apply readClientCAs_inl in Hread as (pems & -> & HF). exists pems. by split.
Qed.

(** X17: where the certificates of a TLS listener come from.  With a
    Let's Encrypt cache file there is no certificate file, the listener
    gets the manager made of the Let's Encrypt settings and no
    certificate of its own, and [acme-tls/1] is added after the
    protocols of [nextProtos]; without it the listener gets the one
    certificate that [LoadX509KeyPair] made of the certificate and the
    key, and the protocols of [nextProtos]. *)
Theorem ListenAndServe_certificates config config' st ln conf :
  ListenAndServe config = (config', inl st) ->
  registry.listenerOf st = registry.Secure ln conf ->
  (configuration.HTTP_TLS_LetsEncrypt_CacheFile config <> ""%string ->
   configuration.HTTP_TLS_Certificate config = ""%string
   /\ (exists m, registry.GetCertificate conf = Some m
                 /\ registry.Cache m
                    = configuration.HTTP_TLS_LetsEncrypt_CacheFile config
                 /\ registry.HostPolicy m
                    = configuration.HTTP_TLS_LetsEncrypt_Hosts config
                 /\ registry.Client m
                    = registry.setDirectoryURL
                        (configuration.HTTP_TLS_LetsEncrypt_DirectoryURL config))
   /\ registry.Certificates conf = []
   /\ registry.NextProtos conf = registry.nextProtos config ++ ["acme-tls/1"%string])
  /\ (configuration.HTTP_TLS_LetsEncrypt_CacheFile config = ""%string ->
      registry.GetCertificate conf = None
      /\ (exists certificate,
            LoadX509KeyPair (configuration.HTTP_TLS_Certificate config)
              (configuration.HTTP_TLS_Key config) = inl certificate
            /\ registry.Certificates conf = [certificate])
      /\ registry.NextProtos conf = registry.nextProtos config).
Proof.
  intros Hst Hln.
  destruct (ListenAndServe_secure _ _ _ _ _ Hst Hln)
    as (_ & _ & _ & _ & _ & [(Hl & Hc & Hm & Hcerts & Hprotos)
                             |(Hl & Hc & Hm & Hcerts & Hprotos)] & _).
  - split; [|by intros ?]. intros _. split; [done|].
    split; [eexists; split; [exact Hm|done]|]. by split.
  - split; [by intros ?|]. intros _. by repeat split.
Qed.

(** X18: a certificate file together with a Let's Encrypt cache file
    is refused: the method returns an error and the server is not
    started. *)
Theorem ListenAndServe_refuses_both config :
  configuration.HTTP_TLS_Certificate config <> ""%string ->
  configuration.HTTP_TLS_LetsEncrypt_CacheFile config <> ""%string ->
  exists config' err, ListenAndServe config = (config', inr err).
Proof.
  intros Hc Hl.
  destruct (ListenAndServe config) as [config' [st|err]] eqn:Hst; [|by eauto].
  destruct (registry.listenerOf st) as [ln|ln conf] eqn:Hln.
  - exfalso. revert Hst. unfold registry.ListenAndServe.
    destruct (NewListener _ _) as [ln0|err]; [|by intros [=]].
    apply String.eqb_neq in Hc. rewrite Hc. cbn [negb orb].
    repeat match goal with
           | |- context [match ?x with _ => _ end] => destruct x
           end; intros [= <- <-]; done.
  - destruct (ListenAndServe_secure _ _ _ _ _ Hst Hln)
      as (_ & _ & _ & _ & _ & [(_ & Hc' & _)|(Hl' & _)] & _); done.
Qed.

(** X19: without a certificate file and without a Let's Encrypt cache
    file the registry serves on the listener of [NewListener] itself:
    the other TLS settings ([MinimumTLS], the cipher suites, the client
    CAs) are not looked at, not even to be refused, and the
    configuration is left as it was. *)
Theorem ListenAndServe_plain config :
  configuration.HTTP_TLS_Certificate config = ""%string ->
  configuration.HTTP_TLS_LetsEncrypt_CacheFile config = ""%string ->
  ListenAndServe config
  = (config,
     match NewListener (configuration.HTTP_Net config)
             (configuration.HTTP_Addr config) with
     | inr err => inr err
     | inl ln =>
       inl (if Z.eqb (configuration.HTTP_DrainTimeout config) 0
            then registry.Serve (registry.Plain ln)
            else registry.ServeAndDrain (registry.Plain ln)
                   (configuration.HTTP_DrainTimeout config))
     end).
Proof.
  intros Hc Hl. unfold registry.ListenAndServe. rewrite Hc, Hl. simpl.
  destruct (NewListener _ _); [|done].
  by destruct (Z.eqb (configuration.HTTP_DrainTimeout config) 0).
Qed.

End ListenAndServe.

Section ResolveConfiguration.
Context {File : Type}.
Variable Open : string -> File + string.
Variable Parse : File -> configuration.Configuration + string.

(** X20: which path [resolveConfiguration] reads.  With arguments it
    is the first one, whatever the other arguments and the environment
    are; only without arguments it is [REGISTRY_CONFIGURATION_PATH];
    and an empty path, also one given as the first argument while the
    variable is set, is "configuration path unspecified". *)
Theorem resolveConfiguration_path (Getenv Getenv' : string -> string)
    (arg : string) (rest : list string) :
  registry.resolveConfiguration File Getenv Open Parse (arg :: rest)
  = registry.resolveConfiguration File Getenv' Open Parse [arg]
  /\ registry.resolveConfiguration File Getenv Open Parse ("" :: rest)
     = inr "configuration path unspecified"
  /\ registry.resolveConfiguration File Getenv Open Parse []
     = (if String.eqb (Getenv "REGISTRY_CONFIGURATION_PATH") ""
        then inr "configuration path unspecified"
        else registry.resolveConfiguration File Getenv' Open Parse
               [Getenv "REGISTRY_CONFIGURATION_PATH"]).
Proof.
  split; [done|]. split; [done|].
  unfold registry.resolveConfiguration.
  by destruct (String.eqb (Getenv "REGISTRY_CONFIGURATION_PATH") "") eqn:He;
    simpl; rewrite ?He.
Qed.

End ResolveConfiguration.

Lemma CipherSuiteName_table name id :
  registry.cipherSuites !! name = Some id ->
  RegistrySample.CipherSuiteName id = name.
Proof.
  intros Hid. apply elem_of_list_to_map_2 in Hid.
  unfold registry.cipherSuiteTable in Hid.
  repeat (apply elem_of_cons in Hid as [[= -> ->]|Hid]; [reflexivity|]).
  by apply elem_of_nil in Hid.
Qed.

Lemma getCipherSuiteNames_round_trip_witness :
  registry.getCipherSuites ["TLS_AES_128_GCM_SHA256"; "TLS_RSA_WITH_AES_128_CBC_SHA"]
  = inl [tls.TLS_AES_128_GCM_SHA256; tls.TLS_RSA_WITH_AES_128_CBC_SHA]
  /\ registry.getCipherSuiteNames RegistrySample.CipherSuiteName
       [tls.TLS_AES_128_GCM_SHA256; tls.TLS_RSA_WITH_AES_128_CBC_SHA]
     = ["TLS_AES_128_GCM_SHA256"; "TLS_RSA_WITH_AES_128_CBC_SHA"].
Proof.
  assert (registry.getCipherSuites
            ["TLS_AES_128_GCM_SHA256"; "TLS_RSA_WITH_AES_128_CBC_SHA"]
          = inl [tls.TLS_AES_128_GCM_SHA256; tls.TLS_RSA_WITH_AES_128_CBC_SHA])
    as Hids by (vm_compute; reflexivity).
  split; [exact Hids|].
  apply (getCipherSuiteNames_round_trip RegistrySample.CipherSuiteName
           ["TLS_AES_128_GCM_SHA256"; "TLS_RSA_WITH_AES_128_CBC_SHA"]
           [tls.TLS_AES_128_GCM_SHA256; tls.TLS_RSA_WITH_AES_128_CBC_SHA]
           CipherSuiteName_table); [discriminate|exact Hids].
Defined.

Lemma ListenAndServe_sample :
  RegistrySample.ListenAndServe RegistrySample.config
  = (configuration.set_HTTP_TLS_MinimumTLS "tls1.2" RegistrySample.config,
     inl (registry.Serve (registry.Secure "tcp://:5000" RegistrySample.tlsConf))).
Proof. vm_compute; reflexivity. Qed.

Lemma ListenAndServe_minimum_version_witness :
  RegistrySample.ListenAndServe RegistrySample.config
  = (configuration.set_HTTP_TLS_MinimumTLS "tls1.2" RegistrySample.config,
     inl (registry.Serve (registry.Secure "tcp://:5000" RegistrySample.tlsConf)))
  /\ (registry.MinVersion RegistrySample.tlsConf = tls.VersionTLS12
      \/ registry.MinVersion RegistrySample.tlsConf = tls.VersionTLS13).
Proof.
  split; [exact ListenAndServe_sample|].
  destruct (ListenAndServe_minimum_version _ _ _ _ _ _ _ _ _
              ListenAndServe_sample eq_refl) as (Hv & _).
  exact Hv.
Defined.


Lemma ListenAndServe_client_auth_witness :
  RegistrySample.ListenAndServe RegistrySample.config
  = (configuration.set_HTTP_TLS_MinimumTLS "tls1.2" RegistrySample.config,
     inl (registry.Serve (registry.Secure "tcp://:5000" RegistrySample.tlsConf)))
  /\ registry.ClientAuth RegistrySample.tlsConf = tls.RequireAndVerifyClientCert.
Proof.
  split; [exact ListenAndServe_sample|].
  destruct (ListenAndServe_client_auth _ _ _ _ _ _ _ _ _
              ListenAndServe_sample eq_refl) as (_ & Hcas).
  apply Hcas. discriminate.
Defined.

Lemma ListenAndServe_certificates_witness :
  RegistrySample.ListenAndServe RegistrySample.config
  = (configuration.set_HTTP_TLS_MinimumTLS "tls1.2" RegistrySample.config,
     inl (registry.Serve (registry.Secure "tcp://:5000" RegistrySample.tlsConf)))
  /\ registry.GetCertificate RegistrySample.tlsConf = None.
Proof.
  split; [exact ListenAndServe_sample|].
  destruct (ListenAndServe_certificates _ _ _ _ _ _ _ _ _
              ListenAndServe_sample eq_refl) as (_ & Hfile).
  apply Hfile. reflexivity.
Defined.

Lemma ListenAndServe_refuses_both_witness :
  configuration.HTTP_TLS_Certificate RegistrySample.both <> ""
  /\ configuration.HTTP_TLS_LetsEncrypt_CacheFile RegistrySample.both <> ""
  /\ exists config' err,
       RegistrySample.ListenAndServe RegistrySample.both = (config', inr err).
Proof.
  split; [discriminate|]. split; [discriminate|].
  apply (ListenAndServe_refuses_both RegistrySample.NewListener
           RegistrySample.LoadX509KeyPair RegistrySample.ReadFile
           RegistrySample.hasCertificate RegistrySample.both); discriminate.
Defined.

Lemma ListenAndServe_plain_witness :
  configuration.HTTP_TLS_Certificate RegistrySample.plain = ""
  /\ configuration.HTTP_TLS_LetsEncrypt_CacheFile RegistrySample.plain = ""
  /\ RegistrySample.ListenAndServe RegistrySample.plain
     = (RegistrySample.plain, inl (registry.Serve (registry.Plain "tcp://:5000"))).
Proof.
  split; [reflexivity|]. split; [reflexivity|].
  apply (ListenAndServe_plain RegistrySample.NewListener
           RegistrySample.LoadX509KeyPair RegistrySample.ReadFile
           RegistrySample.hasCertificate RegistrySample.plain); reflexivity.
Defined.
